(** * KaitaiStream: a shallow embedding of [src/KaitaiStream.js]

    The stream object is modelled as a record holding the fields the
    JavaScript object carries ([_buffer], [_byteOffset], [_byteLength],
    [_dataView], [position]); methods are functions in a small state and
    exception monad, so that a [throw] leaves the fields exactly as the
    statements executed before it left them.

    Numbers are integers ([Z]); the few places where JavaScript coerces
    (ToInt32 for the bitwise operators, ToIndex in the typed-array and
    DataView constructors, storing into a [Uint8Array]) are written out. *)

From Stdlib Require Import ZArith Lia Bool Ascii String List.
From stdpp Require Import base tactics option numbers list strings.

Local Open Scope Z_scope.

(** ** Values thrown by the code *)

Inductive exn : Type :=
  | KaitaiEOFError (bytesReq bytesAvail : Z)
      (* [throw new KaitaiEOFError(length, this.byteLength - this.position)] *)
  | RangeError
      (* raised by the host: DataView getters, typed-array constructors *)
  | ReferenceError (ident : string)
      (* raised by the host: an identifier that resolves to no binding *)
  | TypeError (callee : string)
      (* raised by the host: calling a property that is [undefined] *)
  | NoTerminatorString
      (* the string "End of stream reached, but no terminator ... found" *)
  | UnableToRotateString (groupSize : Z)
      (* the string "unable to rotate group of <groupSize> bytes yet" *)
  | DecoderError (encoding : string).
      (* raised by the external decoder for a named encoding *)

Inductive result (A : Type) : Type :=
  | Ok (a : A)
  | Err (e : exn).
Arguments Ok {A} a.
Arguments Err {A} e.

(** ** Host objects: ArrayBuffer, Uint8Array, DataView *)

Module Host.

(** An [ArrayBuffer] is its sequence of bytes. *)
Definition ArrayBuffer := list Z.

Definition is_byte (b : Z) : Prop := 0 <= b < 256.

Definition byteLengthOf (buf : ArrayBuffer) : Z := Z.of_nat (length buf).

(** [buf.slice(from, from + len)] on in-range arguments. *)
Definition bytes_at (buf : ArrayBuffer) (from len : Z) : list Z :=
  take (Z.to_nat len) (drop (Z.to_nat from) buf).

(** [new ArrayBuffer(n)], the allocation itself: zero filled; a negative
    length is a RangeError. The upper limit on [n] is applied where the
    size is the caller's, in [ArrayBuffer_of_size]; [_trimAlloc] never asks
    for more than the length of a buffer that exists. *)
Definition ArrayBuffer_new (n : Z) : result ArrayBuffer :=
  if n <? 0 then Err RangeError else Ok (replicate (Z.to_nat n) 0).

(** The largest length ToIndex accepts, [2^53 - 1]. *)
Definition max_index : Z := 9007199254740991.

(** [new ArrayBuffer(n)] for a size the caller chose: ToIndex refuses a
    size above [2^53 - 1] with a RangeError. A host may refuse a smaller
    size that it cannot allocate, with a RangeError too; which sizes those
    are is the host's business, so the model allocates every size ToIndex
    accepts, and nothing below says that an allocation of a given size
    succeeds. *)
Definition ArrayBuffer_of_size (n : Z) : result ArrayBuffer :=
  if max_index <? n then Err RangeError else ArrayBuffer_new n.

(** [new Uint8Array(buffer, byteOffset, length)]. The typed array aliases
    the buffer; none of the operations modelled here writes to a buffer
    after a view of it was taken, so the view is given by its contents.
    [length = None] is the two-argument form, which extends to the end of
    the buffer. *)
Definition Uint8Array_new (buf : ArrayBuffer) (byteOffset : Z)
                          (len : option Z) : result (list Z) :=
  if byteOffset <? 0 then Err RangeError else
  match len with
  | None =>
      if byteLengthOf buf <? byteOffset then Err RangeError
      else Ok (drop (Z.to_nat byteOffset) buf)
  | Some n =>
      if n <? 0 then Err RangeError
      else if byteLengthOf buf <? byteOffset + n then Err RangeError
      else Ok (bytes_at buf byteOffset n)
  end.

(** A [DataView] over the stream's own [_buffer]: every setter of the
    stream builds it as [new DataView(this._buffer, this._byteOffset)], so
    only its window has to be recorded. *)
Record DataView : Type := mkDataView {
  dv_byteOffset : Z;
  dv_byteLength : Z
}.

(** [new DataView(buffer, byteOffset)] *)
Definition DataView_new (buf : ArrayBuffer) (byteOffset : Z) : result DataView :=
  if (byteOffset <? 0) || (byteLengthOf buf <? byteOffset) then Err RangeError
  else Ok (mkDataView byteOffset (byteLengthOf buf - byteOffset)).

(** The bytes a getter of width [n] reads at [pos], or the RangeError of
    the getter's bounds check against the DataView's own length. *)
Definition DataView_bytes (buf : ArrayBuffer) (dv : DataView) (pos n : Z)
  : result (list Z) :=
  if pos <? 0 then Err RangeError
  else if dv_byteLength dv <? pos + n then Err RangeError
  else Ok (bytes_at buf (dv_byteOffset dv + pos) n).

(** Little-endian value of a byte sequence. *)
Fixpoint le_value (bs : list Z) : Z :=
  match bs with
  | [] => 0
  | b :: rest => b + 256 * le_value rest
  end.

Definition be_value (bs : list Z) : Z := le_value (rev bs).

Definition DataView_getUint (buf : ArrayBuffer) (dv : DataView) (n : Z)
                            (pos : Z) (littleEndian : bool) : result Z :=
  match DataView_bytes buf dv pos n with
  | Err e => Err e
  | Ok bs => Ok (if littleEndian then le_value bs else be_value bs)
  end.

End Host.
Import Host.

(** ** The stream object *)

Record KaitaiStream : Type := mkStream {
  _buffer : ArrayBuffer;
  _byteOffset : Z;
  _byteLength : Z;
  _dataView : DataView;
  position : Z
}.

(** The [byteLength] getter. *)
Definition byteLength (s : KaitaiStream) : Z := _byteLength s - _byteOffset s.

(** The [byteOffset] getter. *)
Definition byteOffset (s : KaitaiStream) : Z := _byteOffset s.

Definition set_position (p : Z) (s : KaitaiStream) : KaitaiStream :=
  mkStream (_buffer s) (_byteOffset s) (_byteLength s) (_dataView s) p.

(** ** Methods: state and exceptions *)

Definition M (A : Type) : Type := KaitaiStream -> result A * KaitaiStream.

Definition ret {A} (a : A) : M A := fun s => (Ok a, s).
Definition throw {A} (e : exn) : M A := fun s => (Err e, s).
Definition bind {A B} (m : M A) (k : A -> M B) : M B :=
  fun s => match m s with
           | (Ok a, s') => k a s'
           | (Err e, s') => (Err e, s')
           end.
Definition this : M KaitaiStream := fun s => (Ok s, s).
Definition assign_position (p : Z) : M unit := fun s => (Ok tt, set_position p s).
Definition host {A} (r : result A) : M A := fun s => (r, s).

Declare Scope js_scope.
Delimit Scope js_scope with js.
Notation "'let!' x ':=' m 'in' k" := (bind m (fun x => k))
  (at level 10, x name, m at level 100, k at level 200) : js_scope.
Notation "m ';;' k" := (bind m (fun _ => k))
  (at level 100, k at level 200, right associativity) : js_scope.
Local Open Scope js_scope.

(** [KaitaiStream.prototype.mapUint8Array] *)
Definition mapUint8Array (len : Z) : M (list Z) :=
  let! s := this in
  if byteLength s <? position s + len then
    throw (KaitaiEOFError len (byteLength s - position s))
  else
    let! arr := host (Uint8Array_new (_buffer s) (byteOffset s + position s) (Some len)) in
    let! s := this in
    assign_position (position s + len) ;;
    ret arr.

(** [KaitaiStream.prototype.readBytes] *)
Definition readBytes (len : Z) : M (list Z) := mapUint8Array len.

(** [KaitaiStream.prototype.readBytesFull] *)
Definition readBytesFull : M (list Z) :=
  let! s := this in mapUint8Array (byteLength s - position s).

(** ** Stream positioning *)

(** [KaitaiStream.prototype.isEof] *)
Definition isEof : M bool :=
  let! s := this in ret (byteLength s <=? position s).

(** The numbers [seek] can be handed: an integer, or one of the three
    non-finite values. *)
Inductive jsnum : Type :=
  | Num (z : Z)
  | Infinity
  | NegInfinity
  | NaN.

Definition Math_min (a b : jsnum) : jsnum :=
  match a, b with
  | NaN, _ | _, NaN => NaN
  | NegInfinity, _ | _, NegInfinity => NegInfinity
  | Infinity, x | x, Infinity => x
  | Num x, Num y => Num (Z.min x y)
  end.

Definition Math_max (a b : jsnum) : jsnum :=
  match a, b with
  | NaN, _ | _, NaN => NaN
  | Infinity, _ | _, Infinity => Infinity
  | NegInfinity, x | x, NegInfinity => x
  | Num x, Num y => Num (Z.max x y)
  end.

Definition isNaN (a : jsnum) : bool :=
  match a with NaN => true | _ => false end.

Definition isFinite (a : jsnum) : bool :=
  match a with Num _ => true | _ => false end.

(** The integer a finite number stands for (only reached on [Num]). *)
Definition finite_value (a : jsnum) : Z :=
  match a with Num z => z | _ => 0 end.

(** [KaitaiStream.prototype.seek] *)
Definition seek (pos : jsnum) : M unit :=
  let! s := this in
  let npos := Math_max (Num 0) (Math_min (Num (byteLength s)) pos) in
  assign_position (if isNaN npos || negb (isFinite npos) then 0
                   else finite_value npos).

(** ** Fixed-width numeric readers *)

(** What a numeric reader returns. A float is kept as the IEEE-754 bit
    pattern the getter assembled from the bytes. *)
Inductive number : Type :=
  | Int (z : Z)
  | Float32 (bits : Z)
  | Float64 (bits : Z).

(** [this._dataView.getUint<8n>(pos, littleEndian)] and the float getters,
    which do the same bounds check on the same window. *)
Definition dataView_get (n : Z) (pos : Z) (littleEndian : bool) : M Z :=
  let! s := this in
  host (DataView_getUint (_buffer s) (_dataView s) n pos littleEndian).

Definition advance (n : Z) : M unit :=
  let! s := this in assign_position (position s + n).

(** [KaitaiStream.prototype.readU1] *)
Definition readU1 : M number :=
  let! s := this in
  let! v := dataView_get 1 (position s) false in
  advance 1 ;;
  ret (Int v).

(** [KaitaiStream.prototype.readU2le] *)
Definition readU2le : M number :=
  let! s := this in
  let! v := dataView_get 2 (position s) true in
  advance 2 ;;
  ret (Int v).

(** [KaitaiStream.prototype.readU4le] *)
Definition readU4le : M number :=
  let! s := this in
  let! v := dataView_get 4 (position s) true in
  advance 4 ;;
  ret (Int v).

(** [KaitaiStream.prototype.readU2be] *)
Definition readU2be : M number :=
  let! s := this in
  let! v := dataView_get 2 (position s) false in
  advance 2 ;;
  ret (Int v).

(** [KaitaiStream.prototype.readU4be] *)
Definition readU4be : M number :=
  let! s := this in
  let! v := dataView_get 4 (position s) false in
  advance 4 ;;
  ret (Int v).

(** [KaitaiStream.prototype.readF4be] *)
Definition readF4be : M number :=
  let! s := this in
  let! v := dataView_get 4 (position s) false in
  advance 4 ;;
  ret (Float32 v).

(** [KaitaiStream.prototype.readF8be] *)
Definition readF8be : M number :=
  let! s := this in
  let! v := dataView_get 8 (position s) false in
  advance 8 ;;
  ret (Float64 v).

(** [KaitaiStream.prototype.readF4le] *)
Definition readF4le : M number :=
  let! s := this in
  let! v := dataView_get 4 (position s) true in
  advance 4 ;;
  ret (Float32 v).

(** [KaitaiStream.prototype.readF8le] *)
Definition readF8le : M number :=
  let! s := this in
  let! v := dataView_get 8 (position s) true in
  advance 8 ;;
  ret (Float64 v).

(** The zero-argument readers that [KaitaiStream.prototype] defines, in the
    order of the file. JavaScript resolves [stream.readX()] by looking the
    name up in this table; a name that is not there evaluates to
    [undefined], and calling it raises a TypeError. *)
Definition prototype_readers : list (string * M number) :=
  [ ("readU1", readU1); ("readU2le", readU2le); ("readU4le", readU4le);
    ("readU2be", readU2be); ("readU4be", readU4be);
    ("readF4be", readF4be); ("readF8be", readF8be);
    ("readF4le", readF4le); ("readF8le", readF8le) ]%string.

Fixpoint get_property {A} (table : list (string * A)) (name : string) : option A :=
  match table with
  | [] => None
  | (k, v) :: rest => if String.eqb k name then Some v else get_property rest name
  end.

(** [stream[name]()] *)
Definition call_reader (name : string) : M number :=
  match get_property prototype_readers name with
  | Some m => m
  | None => throw (TypeError name)
  end.

(** The byte width each numeric reader asks of the buffer. *)
Definition reader_width (name : string) : option Z :=
  get_property
    [ ("readU1", 1); ("readU2le", 2); ("readU4le", 4);
      ("readU2be", 2); ("readU4be", 4);
      ("readF4be", 4); ("readF8be", 8);
      ("readF4le", 4); ("readF8le", 8) ]%string name.

(** ** Construction *)

(** The first argument of [new KaitaiStream(arrayBuffer, byteOffset)]. *)
Inductive ctor_arg : Type :=
  | OfArrayBuffer (buf : ArrayBuffer)
  | OfDataView (buf : ArrayBuffer) (viewOffset viewLength : Z)
  | OfSize (n : option Z).

(** [x || d] for a number or [undefined]: [0] and [undefined] are falsy. *)
Definition or_default (x : option Z) (d : Z) : Z :=
  match x with
  | Some z => if z =? 0 then d else z
  | None => d
  end.

Definition truthy (x : option Z) : bool :=
  match x with Some z => negb (z =? 0) | None => false end.

(** The [buffer] setter, given the [_byteOffset] already stored. *)
Definition set_buffer (v : ArrayBuffer) (off : Z) (pos : Z) : result KaitaiStream :=
  match DataView_new v off with
  | Err e => Err e
  | Ok dv => Ok (mkStream v off (byteLengthOf v) dv pos)
  end.

(** The constructor. *)
Definition KaitaiStream_new (arrayBuffer : ctor_arg) (byteOffset : option Z)
  : result KaitaiStream :=
  let off0 := or_default byteOffset 0 in
  match arrayBuffer with
  | OfArrayBuffer buf => set_buffer buf off0 0
  | OfDataView buf voff vlen =>
      (* the [dataView] setter, then [this._byteOffset += byteOffset] *)
      match DataView_new buf voff with
      | Err e => Err e
      | Ok dv =>
          let off := if truthy byteOffset then voff + or_default byteOffset 0
                     else voff in
          Ok (mkStream buf off (voff + vlen) dv 0)
      end
  | OfSize n =>
      match ArrayBuffer_of_size (or_default n 1) with
      | Err e => Err e
      | Ok buf => set_buffer buf off0 0
      end
  end.

(** ** Strings *)

(** [String.fromCharCode.apply(null, codes)] for byte-valued codes: one
    character per byte, with that byte as its code. *)
Definition fromCharCode (codes : list Z) : string :=
  string_of_list_ascii (map (fun c => ascii_of_N (Z.to_N c)) codes).

(** [array.subarray(from, to)] for [0 <= from]; [to] is clamped to the end. *)
Definition subarray (array : list Z) (from to : Z) : list Z :=
  bytes_at array from (to - from).

Definition chunk_size : Z := 0x8000.

(** The [for] loop of [createStringFromArray]: [i] runs over the chunk
    starts, [chunks] collects the pieces. Every turn moves [i] forward by
    [chunk_size], so [fuel] turns suffice for an array of [fuel] bytes. *)
Fixpoint createStringFromArray_loop (fuel : nat) (array : list Z) (i : Z)
                                    (chunks : list string) : list string :=
  match fuel with
  | O => chunks
  | S fuel' =>
      if i <? byteLengthOf array then
        createStringFromArray_loop fuel' array (i + chunk_size)
          (chunks ++ [fromCharCode (subarray array i (i + chunk_size))])
      else chunks
  end.

(** [chunks.join("")] *)
Definition join_empty (chunks : list string) : string :=
  fold_right String.append EmptyString chunks.

(** [KaitaiStream.createStringFromArray] *)
Definition createStringFromArray (array : list Z) : string :=
  join_empty (createStringFromArray_loop (S (length array)) array 0 []).

(** Identifiers a function body of this file can resolve besides its own
    parameters and [var]s: the globals the file itself defines. *)
Definition file_globals : list string :=
  [ "KaitaiStream"; "KaitaiEOFError" ]%string.

(** Evaluating the identifier [ident] inside a function whose parameters and
    [var]s are [locals]. *)
Definition resolve (locals : list string) (ident : string) : M unit :=
  if existsb (String.eqb ident) (locals ++ file_globals) then ret tt
  else throw (ReferenceError ident).

(** The scan of [readStrz]:
    [for (var i = 0; i < blen && u8[i] != terminator; i++);]
    An index past the end of [u8] reads [undefined], which differs from
    every number. *)
Fixpoint scan_terminator (fuel : nat) (u8 : list Z) (terminator blen i : Z) : Z :=
  match fuel with
  | O => i
  | S fuel' =>
      if (i <? blen) &&
         negb (bool_decide (u8 !! Z.to_nat i = Some terminator))
      then scan_terminator fuel' u8 terminator blen (i + 1)
      else i
  end.

Section Strings.

(** The decoders the file reaches for an encoding label other than
    "ASCII" ([TextDecoder], node's [Buffer], [iconv-lite]) are not part
    of it; they are a parameter of the string readers. *)
Variable decode_named : string -> list Z -> result string.

(** [KaitaiStream.arrayToString] *)
Definition arrayToString (arr : list Z) (encoding : option string)
  : result string :=
  match encoding with
  | None => Ok (createStringFromArray arr)
  | Some label =>
      if String.eqb label "ASCII" then Ok (createStringFromArray arr)
      else decode_named label arr
  end.

(** [KaitaiStream.prototype.readStrEos] *)
Definition readStrEos (encoding : option string) : M string :=
  let! arr := readBytesFull in
  host (arrayToString arr encoding).

(** [KaitaiStream.prototype.readStrByteLimit] *)
Definition readStrByteLimit (length : Z) (encoding : option string) : M string :=
  let! arr := readBytes length in
  host (arrayToString arr encoding).

Definition readStrz_locals : list string :=
  [ "encoding"; "terminator"; "include"; "consume"; "eosError";
    "blen"; "u8"; "i"; "arr" ]%string.

(** [KaitaiStream.prototype.readStrz] *)
Definition readStrz (encoding : option string) (terminator : Z)
                    (include consume eosError : bool) : M string :=
  let! s := this in
  let blen := byteLength s - position s in
  let! u8 := host (Uint8Array_new (_buffer s) (_byteOffset s + position s) None) in
  let i := scan_terminator (Z.to_nat blen) u8 terminator blen 0 in
  if i =? blen then
    if eosError then
      (* throw "End of stream reached, but no terminator " + term + " found" *)
      resolve readStrz_locals "term" ;;
      throw NoTerminatorString
    else
      let! arr := mapUint8Array i in
      host (arrayToString arr encoding)
  else
    let! arr := (if include then mapUint8Array (i + 1)
                 else mapUint8Array i) in
    (if consume then advance 1 else ret tt) ;;
    host (arrayToString arr encoding).

End Strings.

(** ** Byte array processing *)

Module Bits.

Definition ToInt32 (z : Z) : Z := (z + 2 ^ 31) mod 2 ^ 32 - 2 ^ 31.
Definition ToUint32 (z : Z) : Z := z mod 2 ^ 32.

(** Storing a number into a [Uint8Array] element. *)
Definition ToUint8 (z : Z) : Z := z mod 256.

(** An operand of a bitwise operator read from an array: a missing
    element is [undefined], which the operator takes as [0]. *)
Definition operand (x : option Z) : Z := default 0 x.

(** [a ^ b], [a & b], [a | b] *)
Definition xor (a b : Z) : Z := Z.lxor (ToInt32 a) (ToInt32 b).
Definition and (a b : Z) : Z := Z.land (ToInt32 a) (ToInt32 b).
Definition or (a b : Z) : Z := Z.lor (ToInt32 a) (ToInt32 b).

(** [a << b], [a >> b]: the count is taken modulo 32. *)
Definition shl (a b : Z) : Z :=
  ToInt32 (Z.shiftl (ToInt32 a) (ToUint32 b mod 32)).
Definition sar (a b : Z) : Z :=
  Z.shiftr (ToInt32 a) (ToUint32 b mod 32).

End Bits.

(** [var r = new Uint8Array(n); for (var i = 0; i < n; i++) r[i] = f(i);]
    with the loop state [st] that the body threads besides [r]. *)
Definition for_each_index {S} (n : nat) (body : nat -> S -> Z * S) (st : S)
  : list Z * S :=
  foldl (fun acc i =>
           let '(v, st') := body i (snd acc) in
           (<[ i := Bits.ToUint8 v ]> (fst acc), st'))
        (replicate n 0, st) (seq 0 n).

(** [KaitaiStream.processXorOne] *)
Definition processXorOne (data : list Z) (key : Z) : list Z :=
  let dl := length data in
  fst (for_each_index dl
         (fun i _ => (Bits.xor (Bits.operand (data !! i)) key, tt)) tt).

(** [KaitaiStream.processXorMany]; the loop state is [ki]. *)
Definition processXorMany (data : list Z) (key : list Z) : list Z :=
  let kl := length key in
  fst (for_each_index (length data)
         (fun i ki =>
            let v := Bits.xor (Bits.operand (data !! i)) (Bits.operand (key !! ki)) in
            let ki := S ki in
            (v, if (kl <=? ki)%nat then O else ki))
         O).

(** The right-hand side of the assignment in [processRotateLeft]:
    [(d << amount) & 0xff | (d >> antiAmount)]. *)
Definition rotate_expr (d amount antiAmount : Z) : Z :=
  Bits.or (Bits.and (Bits.shl d amount) 0xff) (Bits.sar d antiAmount).

(** [KaitaiStream.processRotateLeft] *)
Definition processRotateLeft (data : list Z) (amount groupSize : Z)
  : result (list Z) :=
  if negb (groupSize =? 1) then Err (UnableToRotateString groupSize)
  else
    let mask := groupSize * 8 - 1 in
    let antiAmount := Bits.and (- amount) mask in
    Ok (fst (for_each_index (length data)
               (fun i _ =>
                  (rotate_expr (Bits.operand (data !! i)) amount antiAmount, tt))
               tt)).

(** * Properties *)

(** ** The logical view and the states a stream can be in *)

(** The bytes the stream gives access to: [byteLength] bytes of [_buffer]
    from [_byteOffset] on. *)
Definition view (s : KaitaiStream) : list Z :=
  bytes_at (_buffer s) (_byteOffset s) (byteLength s).

(** The remaining bytes: the view from [position] on. *)
Definition remaining (s : KaitaiStream) : list Z :=
  drop (Z.to_nat (position s)) (view s).

(** The window lies inside the buffer and the cursor is not negative. The
    cursor is not required to be at most [byteLength]: [readStrz] and the
    numeric readers can leave it beyond. *)
Definition stream_ok (s : KaitaiStream) : Prop :=
  0 <= _byteOffset s /\ _byteOffset s <= _byteLength s /\
  _byteLength s <= byteLengthOf (_buffer s) /\ 0 <= position s.

(** Every property the file defines on [KaitaiStream.prototype], in the
    order of the file (accessors first, then the methods). *)
Definition prototype_keys : list string :=
  [ "_byteLength"; "byteLength"; "buffer"; "byteOffset"; "dataView";
    "_trimAlloc"; "isEof"; "seek";
    "readU1"; "readU2le"; "readU4le"; "readU2be"; "readU4be";
    "readF4be"; "readF8be"; "readF4le"; "readF8le";
    "readFloat32"; "readFloat64";
    "readBytes"; "readBytesFull";
    "readStrEos"; "readStrByteLimit"; "readStrz";
    "mapUint8Array" ]%string.

Definition defined_on_prototype (name : string) : bool :=
  existsb (String.eqb name) prototype_keys.

(** The names the Kaitai Struct stream API gives the signed integer
    readers of 8, 16 and 32 bits. *)
Definition signed_reader_names : list string :=
  [ "readS1"; "readS2le"; "readS2be"; "readS4le"; "readS4be" ]%string.

(** The body every numeric reader of the file has: one DataView getter at
    [position], then [this.position += n]. *)
Definition read_fixed (n : Z) (littleEndian : bool) (wrap : Z -> number) : M number :=
  let! s := this in
  let! v := dataView_get n (position s) littleEndian in
  advance n ;;
  ret (wrap v).

Definition is_KaitaiEOFError {A} (r : result A) : bool :=
  match r with Err (KaitaiEOFError _ _) => true | _ => false end.

(** Clamping into [0, hi], as the contract of [seek] words it. *)
Definition clamp_into (hi z : Z) : Z :=
  if z <? 0 then 0 else if hi <? z then hi else z.

(** A decoder that knows no encoding at all: what [new TextDecoder(label)]
    or [iconv-lite] do for a label they do not recognise. *)
Definition rejecting_decoder (label : string) (arr : list Z) : result string :=
  Err (DecoderError label).

(** The decoder, handed the bytes [arr], threw [e]. *)
Definition failed_in_decoder (decode_named : string -> list Z -> result string)
                             (enc : option string) (e : exn) : Prop :=
  exists arr, arrayToString decode_named arr enc = Err e.

(** Rotation of the eight bits of a byte, as the contract words it: one
    position to the left moves every bit one place up and the top bit to
    the bottom; [amount] positions repeat that [amount] times. *)
Definition rotate_left_once (b : Z) : Z := (2 * b) mod 256 + b / 128.

Definition rotate_left_by (amount : nat) (b : Z) : Z :=
  Nat.iter amount rotate_left_once b.

(** Rotation by an integer number of positions: eight positions bring a
    byte back, so the amount counts modulo 8, and a negative amount
    rotates to the right. *)
Definition rotate_left_Z (amount : Z) (b : Z) : Z :=
  rotate_left_by (Z.to_nat (amount mod 8)) b.

(** The shifts on which [processRotateLeft] rotates: those whose value
    modulo 32, the count [<<] uses, is 0 to 8, 16 or 24. *)
Definition rotates (amount : Z) : bool :=
  (amount mod 32 <=? 8) || (amount mod 32 =? 16) || (amount mod 32 =? 24).

(** Whether the expression of the code and the rotation of the contract
    agree on byte [d] and shift [k]. *)
Definition rotate_agrees (k d : nat) : bool :=
  Bits.ToUint8 (rotate_expr (Z.of_nat d) (Z.of_nat k)
                            (Bits.and (- Z.of_nat k) 7))
  =? rotate_left_by k (Z.of_nat d).

(** ** The rest of the file: buffer management *)

(** [dst.set(src)] for a [Uint8Array] [dst] that starts [off] bytes into
    its buffer [buf] and is as long as [src]: the bytes of the window are
    replaced, the rest of the buffer stays. *)
Definition Uint8Array_set (buf : ArrayBuffer) (off : Z) (src : list Z) : ArrayBuffer :=
  take (Z.to_nat off) buf ++ src
  ++ drop (Z.to_nat off + length src) buf.

(** [KaitaiStream.memcpy]: the destination buffer after the call. *)
Definition memcpy (dst : ArrayBuffer) (dstOffset : Z) (src : ArrayBuffer)
                  (srcOffset byteLength : Z) : result ArrayBuffer :=
  match Uint8Array_new dst dstOffset (Some byteLength) with
  | Err e => Err e
  | Ok _ =>
      match Uint8Array_new src srcOffset (Some byteLength) with
      | Err e => Err e
      | Ok srcU8 => Ok (Uint8Array_set dst dstOffset srcU8)
      end
  end.

(** [KaitaiStream.prototype._trimAlloc]: the stream after the call, when
    it returns. *)
Definition _trimAlloc (s : KaitaiStream) : result KaitaiStream :=
  if _byteLength s =? byteLengthOf (_buffer s) then Ok s
  else
    match ArrayBuffer_new (_byteLength s) with
    | Err e => Err e
    | Ok buf =>
        match Uint8Array_new (_buffer s) 0 (Some (byteLengthOf buf)) with
        | Err e => Err e
        | Ok src => set_buffer (Uint8Array_set buf 0 src) (_byteOffset s) (position s)
        end
    end.

(** The [buffer] getter: the buffer it returns and the stream after it. *)
Definition get_buffer (s : KaitaiStream) : result (ArrayBuffer * KaitaiStream) :=
  match _trimAlloc s with
  | Err e => Err e
  | Ok s' => Ok (_buffer s', s')
  end.

(** The [byteOffset] setter. *)
Definition set_byteOffset (v : Z) (s : KaitaiStream) : result KaitaiStream :=
  match DataView_new (_buffer s) v with
  | Err e => Err e
  | Ok dv => Ok (mkStream (_buffer s) v (byteLengthOf (_buffer s)) dv (position s))
  end.

(** The [dataView] setter, handed a DataView of [vlen] bytes at [voff] of
    [buf]. *)
Definition set_dataView (buf : ArrayBuffer) (voff vlen : Z) (s : KaitaiStream)
  : result KaitaiStream :=
  match DataView_new buf voff with
  | Err e => Err e
  | Ok dv => Ok (mkStream buf voff (voff + vlen) dv (position s))
  end.

(** ** The rest of the file: the readers with an endianness argument *)

(** [KaitaiStream.prototype.readFloat32]. [e] is the argument, [None] for
    [null] or a missing one; [own_endianness] is what [this.endianness]
    evaluates to, [None] for [undefined]. No statement of the file defines
    [endianness] on a stream or on the prototype ([KaitaiStream.endianness]
    is a property of the constructor), so it is [None] unless the caller
    has assigned the property. *)
Definition readFloat32 (own_endianness e : option bool) : M number :=
  let! s := this in
  let littleEndian := match e with None => own_endianness | Some b => Some b end in
  let! v := dataView_get 4 (position s) (default false littleEndian) in
  advance 4 ;;
  ret (Float32 v).

(** [KaitaiStream.prototype.readFloat64] *)
Definition readFloat64 (own_endianness e : option bool) : M number :=
  let! s := this in
  let littleEndian := match e with None => own_endianness | Some b => Some b end in
  let! v := dataView_get 8 (position s) (default false littleEndian) in
  advance 8 ;;
  ret (Float64 v).

(** ** The rest of the file: typed arrays and their byte order *)

Inductive element_type : Type :=
  | Int8Array | Uint8Array | Uint8ClampedArray
  | Int16Array | Uint16Array
  | Int32Array | Uint32Array
  | Float32Array | Float64Array.

Definition BYTES_PER_ELEMENT (t : element_type) : nat :=
  match t with
  | Int8Array | Uint8Array | Uint8ClampedArray => 1
  | Int16Array | Uint16Array => 2
  | Int32Array | Uint32Array | Float32Array => 4
  | Float64Array => 8
  end.

(** A typed array, by its element type and the bytes of its window
    ([array.byteLength] of them, from [array.byteOffset] of
    [array.buffer]). *)
Record TypedArray : Type := mkTypedArray {
  ta_type : element_type;
  ta_bytes : list Z
}.

(** The inner loop of [flipArrayEndianness]:
    [for (j, k; j > k; j--, k++) { tmp = u8[k]; u8[k] = u8[j]; u8[j] = tmp }]
    Every turn brings [j] and [k] closer by two, so as many turns as the
    element has bytes suffice. *)
Fixpoint flip_element (fuel : nat) (u8 : list Z) (j k : nat) : list Z :=
  match fuel with
  | O => u8
  | S fuel' =>
      if (k <? j)%nat then
        let tmp := u8 !! k in
        let u8 := <[ k := Bits.ToUint8 (Bits.operand (u8 !! j)) ]> u8 in
        let u8 := <[ j := Bits.ToUint8 (Bits.operand tmp) ]> u8 in
        flip_element fuel' u8 (j - 1) (k + 1)
      else u8
  end.

(** The outer loop:
    [for (i = 0; i < array.byteLength; i += array.BYTES_PER_ELEMENT)]
    Every turn moves [i] forward by at least one byte, so [byteLength]
    turns suffice. *)
Fixpoint flip_elements (fuel : nat) (width byteLength : nat) (u8 : list Z)
                       (i : nat) : list Z :=
  match fuel with
  | O => u8
  | S fuel' =>
      if (i <? byteLength)%nat then
        flip_elements fuel' width byteLength
          (flip_element width u8 (i + width - 1) i) (i + width)
      else u8
  end.

(** [KaitaiStream.flipArrayEndianness]: the array after the call (the
    code changes it in place and returns it). *)
Definition flipArrayEndianness (array : TypedArray) : TypedArray :=
  let n := length (ta_bytes array) in
  mkTypedArray (ta_type array)
    (flip_elements n (BYTES_PER_ELEMENT (ta_type array)) n (ta_bytes array) 0).

Section NativeEndianness.

(** [KaitaiStream.endianness]: true on a little-endian platform. *)
Variable endianness : bool.

(** [KaitaiStream.arrayToNative] *)
Definition arrayToNative (array : TypedArray) (arrayIsLittleEndian : bool) : TypedArray :=
  if Bool.eqb arrayIsLittleEndian endianness then array
  else flipArrayEndianness array.

(** [KaitaiStream.nativeToEndian] *)
Definition nativeToEndian (array : TypedArray) (littleEndian : bool) : TypedArray :=
  if Bool.eqb endianness littleEndian then array
  else flipArrayEndianness array.

End NativeEndianness.

(** ** States and arrays the further properties speak about *)

(** The cursor is inside the view. *)
Definition cursor_in_view (s : KaitaiStream) : Prop :=
  stream_ok s /\ position s <= byteLength s.

(** The DataView of the numeric readers covers exactly the view, as it
    does after construction from an [ArrayBuffer]. *)
Definition dataview_matches (s : KaitaiStream) : Prop :=
  dv_byteOffset (_dataView s) = _byteOffset s /\
  dv_byteLength (_dataView s) = byteLength s.

(** The DataView lies inside the buffer, as every DataView does. *)
Definition dataview_ok (s : KaitaiStream) : Prop :=
  0 <= dv_byteOffset (_dataView s) /\ 0 <= dv_byteLength (_dataView s) /\
  dv_byteOffset (_dataView s) + dv_byteLength (_dataView s)
  <= byteLengthOf (_buffer s).

(** A typed array of [elems], each the bytes of one element. *)
Definition array_of (t : element_type) (elems : list (list Z)) : TypedArray :=
  mkTypedArray t (concat elems).

Definition element_ok (t : element_type) (e : list Z) : Prop :=
  length e = BYTES_PER_ELEMENT t /\ Forall is_byte e.

(** Reading [n] bytes with [readBytes], decoding them, and reporting a
    failure as the host's RangeError. *)
Definition via_readBytes (n : Z) (decode : list Z -> number) : M number :=
  fun s => match readBytes n s with
           | (Ok bs, s') => (Ok (decode bs), s')
           | (Err _, s') => (Err RangeError, s')
           end.

(** The integer a numeric reader assembled: the value of an integer, the
    bit pattern of a float. *)
Definition number_bits (v : number) : Z :=
  match v with Int z => z | Float32 b => b | Float64 b => b end.

(** [s'] has the buffer, the offsets and the DataView of [s]; only
    [position] may differ. *)
Definition same_window (s s' : KaitaiStream) : Prop :=
  s' = set_position (position s') s.

(** A method that assigns no field but [position]. *)
Definition keeps_window {A} (m : M A) : Prop :=
  forall s, same_window s (snd (m s)).

(** ** Streams used in the examples *)

(** [new KaitaiStream(new Uint8Array([0x41, 0x42, 0x00, 0x43]).buffer)] *)
Definition stream_AB0C : KaitaiStream :=
  mkStream [0x41; 0x42; 0x00; 0x43] 0 4 (mkDataView 0 4) 0.

(** A stream over the three bytes [1, 2, 3]. *)
Definition stream_123 : KaitaiStream :=
  mkStream [1; 2; 3] 0 3 (mkDataView 0 3) 0.

(** A stream over ten bytes. *)
Definition stream_ten : KaitaiStream :=
  mkStream [0; 1; 2; 3; 4; 5; 6; 7; 8; 9] 0 10 (mkDataView 0 10) 0.

(** [new KaitaiStream(new DataView(buf, 0, 2))] over an eight-byte [buf]:
    a view of two bytes. *)
Definition stream_view2 : KaitaiStream :=
  mkStream [1; 2; 3; 4; 5; 6; 7; 8] 0 2 (mkDataView 0 8) 0.

(** A stream over the two bytes [0x41, 0x00]. *)
Definition stream_A0 : KaitaiStream :=
  mkStream [0x41; 0x00] 0 2 (mkDataView 0 2) 0.

Ltac run :=
  unfold bind, this, ret, throw, host, assign_position, advance; simpl.

(** Side conditions at a concrete stream. *)
Ltac concrete := unfold stream_ok, byteLength, byteLengthOf; simpl; lia.

Lemma Zltb_false (a b : Z) : b <= a -> (a <? b) = false.
Proof. intros; apply Z.ltb_ge; lia. Qed.

Lemma Zltb_true (a b : Z) : a < b -> (a <? b) = true.
Proof. intros; apply Z.ltb_lt; lia. Qed.

Section ViewLemmas.

Variable s : KaitaiStream.
Hypothesis Hok : stream_ok s.

Lemma view_length : byteLengthOf (view s) = byteLength s.
Proof using Hok.
  destruct Hok as (H0 & H1 & H2 & _).
  unfold view, bytes_at, byteLengthOf, byteLength in *.
  rewrite length_take, length_drop. lia.
Qed.

(** A slice of the buffer inside the window is the same slice of the view. *)
Lemma buffer_slice_in_view (p n : Z) :
  0 <= p -> 0 <= n -> p + n <= byteLength s ->
  bytes_at (_buffer s) (_byteOffset s + p) n = bytes_at (view s) p n.
Proof using Hok.
  intros Hp Hn Hle. destruct Hok as (H0 & H1 & H2 & _).
  unfold view, bytes_at, byteLength in *.
  rewrite Z2Nat.inj_add by lia.
  rewrite <- drop_drop.
  set (w := drop (Z.to_nat (_byteOffset s)) (_buffer s)).
  replace (Z.to_nat (_byteLength s - _byteOffset s))
    with (Z.to_nat p + Z.to_nat (_byteLength s - _byteOffset s - p))%nat by lia.
  rewrite <- take_drop_commute, take_take.
  f_equal. lia.
Qed.

Lemma slice_length (p n : Z) :
  0 <= p -> 0 <= n -> p + n <= byteLength s ->
  byteLengthOf (bytes_at (view s) p n) = n.
Proof using Hok.
  intros Hp Hn Hle. pose proof view_length as Hv.
  unfold bytes_at, byteLengthOf in *.
  rewrite length_take, length_drop. lia.
Qed.

(** The two-argument typed array of [readStrz] starts with the remaining
    bytes of the view. *)
Lemma buffer_tail_lookup (i : Z) :
  0 <= i -> position s + i < byteLength s ->
  drop (Z.to_nat (_byteOffset s + position s)) (_buffer s) !! Z.to_nat i
  = remaining s !! Z.to_nat i.
Proof using Hok.
  intros Hi Hlt. destruct Hok as (H0 & H1 & H2 & H3).
  unfold remaining, view, bytes_at, byteLength in *.
  rewrite !lookup_drop, lookup_take_lt by lia.
  rewrite lookup_drop. f_equal. lia.
Qed.

End ViewLemmas.

(** [mapUint8Array] on a request that fits. *)
Lemma mapUint8Array_fits (s : KaitaiStream) (len : Z) :
  stream_ok s -> 0 <= len -> position s + len <= byteLength s ->
  mapUint8Array len s
  = (Ok (bytes_at (view s) (position s) len), set_position (position s + len) s).
Proof.
  intros Hok Hlen Hfit. pose proof Hok as (H0 & H1 & H2 & H3).
  unfold mapUint8Array. run.
  rewrite Zltb_false by lia.
  unfold Uint8Array_new, byteOffset.
  rewrite (Zltb_false (_byteOffset s + position s) 0) by lia.
  rewrite (Zltb_false len 0) by lia.
  unfold byteLength in Hfit.
  rewrite Zltb_false by lia.
  rewrite buffer_slice_in_view by (auto; unfold byteLength; lia).
  reflexivity.
Qed.

(** [mapUint8Array] on a request that does not fit: nothing is assigned. *)
Lemma mapUint8Array_short (s : KaitaiStream) (len : Z) :
  byteLength s < position s + len ->
  mapUint8Array len s
  = (Err (KaitaiEOFError len (byteLength s - position s)), s).
Proof.
  intros Hshort. unfold mapUint8Array. run.
  rewrite Zltb_true by lia. reflexivity.
Qed.

(** Whenever [mapUint8Array] throws, the stream is as it was. *)
Lemma mapUint8Array_failure_keeps_state (s s' : KaitaiStream) (len : Z) (e : exn) :
  mapUint8Array len s = (Err e, s') -> s' = s.
Proof.
  unfold mapUint8Array. run.
  destruct (byteLength s <? position s + len); [congruence|].
  destruct (Uint8Array_new _ _ _); simpl; congruence.
Qed.

(** The constructor over an [ArrayBuffer] yields a stream in a good state
    whose view is the buffer from the offset on. *)
Lemma KaitaiStream_new_ArrayBuffer_ok (buf : ArrayBuffer) (off : option Z) (s : KaitaiStream) :
  KaitaiStream_new (OfArrayBuffer buf) off = Ok s ->
  stream_ok s /\ position s = 0 /\
  view s = drop (Z.to_nat (or_default off 0)) buf.
Proof.
  unfold KaitaiStream_new, set_buffer, DataView_new.
  destruct (_ || _) eqn:E; [discriminate|].
  apply orb_false_iff in E as [E1 E2].
  apply Z.ltb_ge in E1, E2.
  intros [= <-]. unfold stream_ok, view, byteLength, bytes_at; simpl.
  split; [lia|]. split; [reflexivity|].
  apply take_ge. rewrite length_drop. unfold byteLengthOf in *. lia.
Qed.

Lemma examples_constructed :
  KaitaiStream_new (OfArrayBuffer [0x41; 0x42; 0x00; 0x43]) None = Ok stream_AB0C /\
  KaitaiStream_new (OfArrayBuffer [1; 2; 3]) None = Ok stream_123 /\
  KaitaiStream_new (OfArrayBuffer [0; 1; 2; 3; 4; 5; 6; 7; 8; 9]) (Some 0) = Ok stream_ten /\
  KaitaiStream_new (OfDataView [1; 2; 3; 4; 5; 6; 7; 8] 0 2) None = Ok stream_view2.
Proof. repeat split. Qed.

Lemma stream_AB0C_ok : stream_ok stream_AB0C.
Proof. concrete. Defined.

(** ** Raw bytes *)

(** C1. When at least [len] bytes remain in the view, [readBytes len]
    returns exactly the [len] bytes of the view that start at [position]
    and moves [position] forward by [len]; when fewer remain it throws
    [KaitaiEOFError] with the requested count and the count that remains,
    and assigns nothing. *)
Theorem readBytes_spec (s : KaitaiStream) (len : Z) :
  stream_ok s -> 0 <= len ->
  (position s + len <= byteLength s ->
     readBytes len s
     = (Ok (bytes_at (view s) (position s) len),
        set_position (position s + len) s) /\
     byteLengthOf (bytes_at (view s) (position s) len) = len) /\
  (byteLength s < position s + len ->
     readBytes len s
     = (Err (KaitaiEOFError len (byteLength s - position s)), s)).
Proof.
  intros Hok Hlen. split.
  - intros Hfit. split.
    + apply mapUint8Array_fits; assumption.
    + apply slice_length; [assumption | apply Hok | assumption | assumption].
  - apply mapUint8Array_short.
Qed.

Lemma readBytes_spec_witness :
  readBytes 2 (set_position 1 stream_AB0C)
  = (Ok [0x42; 0x00], set_position 3 stream_AB0C) /\
  readBytes 5 (set_position 1 stream_AB0C)
  = (Err (KaitaiEOFError 5 3), set_position 1 stream_AB0C).
Proof.
  assert (Hok : stream_ok (set_position 1 stream_AB0C))
    by concrete.
  split.
  - apply (readBytes_spec (set_position 1 stream_AB0C) 2 Hok); concrete.
  - apply (readBytes_spec (set_position 1 stream_AB0C) 5 Hok); concrete.
Defined.

(** ** Fixed-width numeric readers *)

Lemma read_fixed_run (n : Z) (le : bool) (wrap : Z -> number) (s : KaitaiStream) :
  read_fixed n le wrap s
  = match DataView_getUint (_buffer s) (_dataView s) n (position s) le with
    | Ok v => (Ok (wrap v), set_position (position s + n) s)
    | Err e => (Err e, s)
    end.
Proof.
  unfold read_fixed, dataView_get. run.
  destruct (DataView_getUint _ _ _ _ _); reflexivity.
Qed.

(** A name either is no reader of the prototype, or is one of the nine
    that share the body [read_fixed]. *)
Lemma call_reader_cases (name : string) :
  (get_property prototype_readers name = None /\
   call_reader name = throw (TypeError name)) \/
  (exists n le wrap,
     reader_width name = Some n /\ 0 < n /\
     call_reader name = read_fixed n le wrap).
Proof.
  unfold call_reader, reader_width, prototype_readers.
  cbn -[String.eqb].
  repeat (destruct (String.eqb _ name);
          [right; do 3 eexists; split; [reflexivity|split; [lia|reflexivity]] | ]).
  left; split; reflexivity.
Qed.

(** A DataView getter throws nothing but the host's RangeError. *)
Lemma DataView_getUint_error buf dv n pos le e :
  DataView_getUint buf dv n pos le = Err e -> e = RangeError.
Proof.
  unfold DataView_getUint, DataView_bytes.
  destruct (pos <? 0); [congruence|].
  destruct (dv_byteLength dv <? pos + n); congruence.
Qed.

(** When a numeric reader throws, no field of the stream has changed. *)
Lemma numeric_read_failure_keeps_state (name : string) (s s' : KaitaiStream) (e : exn) :
  call_reader name s = (Err e, s') -> s' = s.
Proof.
  destruct (call_reader_cases name) as [[_ ->] | (n & le & wrap & _ & _ & ->)].
  - unfold throw; congruence.
  - rewrite read_fixed_run.
    destruct (DataView_getUint _ _ _ _ _); congruence.
Qed.

(** The pattern of the readers that exist: with [n] bytes of the DataView
    left at [position], the reader returns a value and moves [position]
    forward by [n], its width. *)
Lemma reader_advances_by_width (name : string) (n : Z) (s : KaitaiStream) :
  reader_width name = Some n ->
  0 <= position s -> position s + n <= dv_byteLength (_dataView s) ->
  exists v, call_reader name s = (Ok v, set_position (position s + n) s).
Proof.
  intros Hw Hpos Hfit.
  destruct (call_reader_cases name) as [[Hnone _] | (n' & le & wrap & Hw' & _ & ->)].
  - exfalso. revert Hw Hnone. unfold reader_width, prototype_readers.
    cbn -[String.eqb].
    repeat (destruct (String.eqb _ name); [discriminate|]). discriminate.
  - assert (n' = n) as -> by congruence.
    rewrite read_fixed_run. unfold DataView_getUint, DataView_bytes.
    rewrite (Zltb_false (position s) 0), Zltb_false by lia.
    eexists; reflexivity.
Qed.

(** C2. No numeric reader ever throws [KaitaiEOFError]: the bounds check is
    the DataView's own, against the DataView's length. On the three-byte
    stream [readU4le] throws the host's RangeError, which carries no
    counts; on a stream made from a two-byte DataView over an eight-byte
    buffer, [readU4le] does not fail at all and returns four bytes. *)
Theorem readU4le_short_read :
  (forall name s, is_KaitaiEOFError (fst (call_reader name s)) = false) /\
  byteLength stream_123 - position stream_123 = 3 /\
  readU4le stream_123 = (Err RangeError, stream_123) /\
  byteLength stream_view2 - position stream_view2 = 2 /\
  readU4le stream_view2 = (Ok (Int 0x04030201), set_position 4 stream_view2).
Proof.
  split; [|repeat split].
  intros name s.
  destruct (call_reader_cases name) as [[_ ->] | (n & le & wrap & _ & _ & ->)].
  - reflexivity.
  - rewrite read_fixed_run.
    destruct (DataView_getUint _ _ _ _ _) eqn:E; [reflexivity|].
    apply DataView_getUint_error in E as ->. reflexivity.
Qed.

(** C6. None of the signed readers is a property of
    [KaitaiStream.prototype]: the section headed "Signed" is empty. A call
    of one of them throws a TypeError on every stream and reads nothing. *)
Theorem signed_readers_undefined :
  forallb (fun name => negb (defined_on_prototype name)) signed_reader_names = true /\
  forallb (fun kv => defined_on_prototype (fst kv)) prototype_readers = true /\
  (forall s, call_reader "readS1" s = (Err (TypeError "readS1"), s)) /\
  (forall s, call_reader "readS2le" s = (Err (TypeError "readS2le"), s)) /\
  (forall s, call_reader "readS2be" s = (Err (TypeError "readS2be"), s)) /\
  (forall s, call_reader "readS4le" s = (Err (TypeError "readS4le"), s)) /\
  (forall s, call_reader "readS4be" s = (Err (TypeError "readS4be"), s)).
Proof. repeat split. Qed.

(** ** Positioning *)

Lemma clamp_into_spec (hi z : Z) :
  0 <= hi ->
  0 <= clamp_into hi z <= hi /\
  (0 <= z <= hi -> clamp_into hi z = z) /\
  (z < 0 -> clamp_into hi z = 0) /\
  (hi < z -> clamp_into hi z = hi).
Proof.
  intros Hhi. unfold clamp_into.
  destruct (Z.ltb_spec z 0), (Z.ltb_spec hi z); lia.
Qed.

(** C5, as the code has it. [seek] never throws. A finite [pos] is clamped
    into [0, byteLength]; so are the infinities, [+Infinity] to
    [byteLength] and [-Infinity] to [0]; [NaN] gives [0]. *)
Theorem seek_clamps (s : KaitaiStream) (pos : jsnum) :
  0 <= byteLength s ->
  seek pos s
  = (Ok tt,
     set_position
       match pos with
       | Num z => clamp_into (byteLength s) z
       | Infinity => byteLength s
       | NegInfinity => 0
       | NaN => 0
       end s).
Proof.
  intros Hlen. unfold seek. run.
  destruct pos as [z| | |]; simpl; repeat f_equal.
  - unfold clamp_into.
    destruct (Z.ltb_spec z 0), (Z.ltb_spec (byteLength s) z); lia.
  - lia.
Qed.

Lemma seek_clamps_witness :
  position (snd (seek (Num (-5)) stream_ten)) = 0 /\
  position (snd (seek (Num 1000) stream_ten)) = byteLength stream_ten /\
  position (snd (seek (Num 4) stream_ten)) = 4 /\
  position (snd (seek NaN stream_ten)) = 0.
Proof.
  assert (H : 0 <= byteLength stream_ten) by concrete.
  rewrite (seek_clamps stream_ten (Num (-5)) H).
  rewrite (seek_clamps stream_ten (Num 1000) H).
  rewrite (seek_clamps stream_ten (Num 4) H).
  rewrite (seek_clamps stream_ten NaN H).
  repeat split.
Defined.

(** C5, counterexample: [+Infinity] is not finite, and [seek(Infinity)] on
    the ten-byte stream leaves [position] at 10, not at 0. *)
Lemma seek_Infinity_goes_to_end :
  isFinite Infinity = false /\
  byteLength stream_ten = 10 /\
  seek Infinity stream_ten = (Ok tt, set_position 10 stream_ten) /\
  (position (snd (seek Infinity stream_ten)) =? 0) = false.
Proof. repeat split. Qed.

(** ** Terminated strings *)

Lemma scan_terminator_stops (fuel : nat) (u8 : list Z) (t blen i0 k : Z) :
  (Z.to_nat (blen - i0) <= fuel)%nat ->
  0 <= i0 <= k -> k < blen ->
  u8 !! Z.to_nat k = Some t ->
  (forall j, i0 <= j < k -> u8 !! Z.to_nat j <> Some t) ->
  scan_terminator fuel u8 t blen i0 = k.
Proof.
  revert i0. induction fuel as [|fuel IH]; intros i0 Hfuel Hi Hk Hat Hbefore.
  - lia.
  - simpl. rewrite (Zltb_true i0 blen) by lia. simpl.
    destruct (decide (i0 = k)) as [->|Hne].
    + rewrite bool_decide_eq_true_2 by assumption. reflexivity.
    + rewrite bool_decide_eq_false_2 by (apply Hbefore; lia). simpl.
      apply IH; try lia; try assumption.
      intros j Hj. apply Hbefore. lia.
Qed.

Lemma scan_terminator_runs_out (fuel : nat) (u8 : list Z) (t blen i0 : Z) :
  (Z.to_nat (blen - i0) <= fuel)%nat ->
  0 <= i0 <= blen ->
  (forall j, i0 <= j < blen -> u8 !! Z.to_nat j <> Some t) ->
  scan_terminator fuel u8 t blen i0 = blen.
Proof.
  revert i0. induction fuel as [|fuel IH]; intros i0 Hfuel Hi Hnone.
  - simpl. lia.
  - simpl. destruct (Z.ltb_spec i0 blen) as [Hlt|Hge]; simpl; [|lia].
    rewrite bool_decide_eq_false_2 by (apply Hnone; lia). simpl.
    apply IH; try lia.
    intros j Hj. apply Hnone. lia.
Qed.

Lemma remaining_length (s : KaitaiStream) :
  stream_ok s -> position s <= byteLength s ->
  byteLengthOf (remaining s) = byteLength s - position s.
Proof.
  intros Hok Hpos. pose proof (view_length s Hok) as Hv.
  destruct Hok as (_ & _ & _ & H3).
  unfold remaining, byteLengthOf in *. rewrite length_drop. lia.
Qed.

Lemma remaining_is_slice (s : KaitaiStream) :
  stream_ok s -> position s <= byteLength s ->
  bytes_at (view s) (position s) (byteLength s - position s) = remaining s.
Proof.
  intros Hok Hpos. pose proof (remaining_length s Hok Hpos) as Hr.
  unfold bytes_at. fold (remaining s).
  apply take_ge. unfold byteLengthOf in Hr. lia.
Qed.

Section StringReaders.

Variable decode_named : string -> list Z -> result string.

(** What the code does once the terminator is found, for each setting of
    the flags: [include] adds the terminator to the bytes taken, and
    [position] moves over the bytes taken and then one further when
    [consume] is set. *)
Lemma readStrz_found (enc : option string) (t : Z)
      (include consume eosError : bool) (s : KaitaiStream) (i : nat) :
  stream_ok s ->
  remaining s !! i = Some t ->
  (forall j, (j < i)%nat -> remaining s !! j <> Some t) ->
  readStrz decode_named enc t include consume eosError s
  = (arrayToString decode_named
       (bytes_at (view s) (position s)
                 (Z.of_nat i + (if include then 1 else 0))) enc,
     set_position (position s + Z.of_nat i + (if include then 1 else 0)
                   + (if consume then 1 else 0)) s).
Proof using Type.
  intros Hok Hat Hbefore.
  pose proof Hok as (H0 & H1 & H2 & H3).
  assert (Hlen : (i < length (remaining s))%nat)
    by (apply lookup_lt_is_Some; eauto).
  assert (Hpos : position s + Z.of_nat i < byteLength s).
  { pose proof (view_length s Hok) as Hv.
    unfold remaining, byteLengthOf in *. rewrite length_drop in Hlen. lia. }
  unfold readStrz. run.
  unfold Uint8Array_new.
  rewrite (Zltb_false (_byteOffset s + position s) 0) by lia.
  rewrite Zltb_false by (unfold byteLength in Hpos; lia). simpl.
  rewrite (scan_terminator_stops _ _ t _ 0 (Z.of_nat i)).
  - rewrite (proj2 (Z.eqb_neq _ _)) by lia.
    assert (Hmap : forall n, 0 <= n -> position s + n <= byteLength s ->
               mapUint8Array n s
               = (Ok (bytes_at (view s) (position s) n),
                  set_position (position s + n) s))
      by (intros; apply mapUint8Array_fits; assumption).
    destruct include, consume; rewrite Hmap by lia; simpl;
      (f_equal;
       solve [ do 2 f_equal; lia | unfold set_position; simpl; f_equal; lia ]).
  - lia.
  - lia.
  - lia.
  - rewrite buffer_tail_lookup by (assumption || lia).
    rewrite Nat2Z.id. assumption.
  - intros j Hj. rewrite buffer_tail_lookup by (assumption || lia).
    apply Hbefore. lia.
Qed.

(** What the code does when the terminator is not among the remaining
    bytes. *)
Lemma readStrz_not_found (enc : option string) (t : Z)
      (include consume eosError : bool) (s : KaitaiStream) :
  stream_ok s -> position s <= byteLength s ->
  t ∉ remaining s ->
  readStrz decode_named enc t include consume eosError s
  = if eosError then (Err (ReferenceError "term"), s)
    else (arrayToString decode_named (remaining s) enc,
          set_position (byteLength s) s).
Proof using Type.
  intros Hok Hpos Hnone.
  pose proof Hok as (H0 & H1 & H2 & H3).
  unfold readStrz. run.
  unfold Uint8Array_new.
  rewrite (Zltb_false (_byteOffset s + position s) 0) by lia.
  rewrite Zltb_false by (unfold byteLength in Hpos; lia). simpl.
  rewrite scan_terminator_runs_out.
  - rewrite Z.eqb_refl. destruct eosError; [reflexivity|].
    rewrite mapUint8Array_fits by (assumption || lia). simpl.
    rewrite remaining_is_slice by assumption.
    f_equal. unfold set_position; simpl; f_equal; lia.
  - lia.
  - lia.
  - intros j Hj. rewrite buffer_tail_lookup by (assumption || lia).
    intros Hin. apply Hnone. eapply list_elem_of_lookup_2. exact Hin.
Qed.

End StringReaders.

(** C3. With the terminator found at offset 2 of [0x41, 0x42, 0x00, 0x43]:
    the C-string read ([include] off, [consume] on) returns "AB" and leaves
    [position] at 3. With [include] on, [position] has moved over the
    terminator already when the bytes were taken: it ends at 3 with
    [consume] off and at 4 with [consume] on, one more than [i] plus the
    [consume] byte. On [0x41, 0x00] with both flags on, [position] ends at
    3, past the end of the two-byte view. *)
Theorem readStrz_overshoot (decode_named : string -> list Z -> result string) :
  readStrz decode_named None 0 false true false stream_AB0C
  = (Ok "AB"%string, set_position 3 stream_AB0C) /\
  readStrz decode_named None 0 true false false stream_AB0C
  = (Ok (fromCharCode [0x41; 0x42; 0x00]), set_position 3 stream_AB0C) /\
  readStrz decode_named None 0 true true false stream_AB0C
  = (Ok (fromCharCode [0x41; 0x42; 0x00]), set_position 4 stream_AB0C) /\
  readStrz decode_named None 0 true true false stream_A0
  = (Ok (fromCharCode [0x41; 0x00]), set_position 3 stream_A0) /\
  byteLength stream_A0 = 2.
Proof. repeat split. Qed.

(** C4. When the terminator is not among the remaining bytes: with
    [eosError] the call throws, but what it throws is the ReferenceError of
    the unbound identifier [term] inside the message expression, not the
    message; without [eosError] it returns the decoded remainder and leaves
    [position] at the end of the view. *)
Theorem readStrz_terminator_absent
        (decode_named : string -> list Z -> result string)
        (enc : option string) (t : Z) (include consume : bool) (s : KaitaiStream) :
  stream_ok s -> position s <= byteLength s ->
  t ∉ remaining s ->
  readStrz decode_named enc t include consume true s
  = (Err (ReferenceError "term"), s) /\
  readStrz decode_named enc t include consume false s
  = (arrayToString decode_named (remaining s) enc,
     set_position (byteLength s) s).
Proof.
  intros Hok Hpos Hnone. split.
  - apply (readStrz_not_found decode_named enc t include consume true); assumption.
  - apply (readStrz_not_found decode_named enc t include consume false); assumption.
Qed.

Lemma readStrz_terminator_absent_witness :
  readStrz rejecting_decoder None 7 false true true stream_AB0C
  = (Err (ReferenceError "term"), stream_AB0C) /\
  readStrz rejecting_decoder None 7 false true false stream_AB0C
  = (Ok (fromCharCode [0x41; 0x42; 0x00; 0x43]), set_position 4 stream_AB0C).
Proof.
  apply (readStrz_terminator_absent rejecting_decoder None 7 false true
           stream_AB0C stream_AB0C_ok).
  - concrete.
  - apply (bool_decide_unpack _). vm_compute. exact I.
Defined.

(** ** Failed reads *)

Lemma readBytes_failure_keeps_state (len : Z) (s s' : KaitaiStream) (e : exn) :
  readBytes len s = (Err e, s') -> s' = s.
Proof. apply mapUint8Array_failure_keeps_state. Qed.

Lemma readBytesFull_failure_keeps_state (s s' : KaitaiStream) (e : exn) :
  readBytesFull s = (Err e, s') -> s' = s.
Proof. unfold readBytesFull. run. apply mapUint8Array_failure_keeps_state. Qed.

Section FailedStringReads.

Variable decode_named : string -> list Z -> result string.

(** A string reader that throws either has assigned nothing, or has taken
    its bytes and was failed by the decoder. *)
Lemma readStrByteLimit_failure len enc s s' e :
  readStrByteLimit decode_named len enc s = (Err e, s') ->
  s' = s \/ failed_in_decoder decode_named enc e.
Proof using Type.
  unfold readStrByteLimit. run.
  destruct (readBytes len s) as [[arr|e0] s0] eqn:E.
  - intros [= Hdec _]. right. exists arr. exact Hdec.
  - intros [= _ <-]. left. eapply readBytes_failure_keeps_state. exact E.
Qed.

Lemma readStrEos_failure enc s s' e :
  readStrEos decode_named enc s = (Err e, s') ->
  s' = s \/ failed_in_decoder decode_named enc e.
Proof using Type.
  unfold readStrEos. run.
  destruct (readBytesFull s) as [[arr|e0] s0] eqn:E.
  - intros [= Hdec _]. right. exists arr. exact Hdec.
  - intros [= _ <-]. left. eapply readBytesFull_failure_keeps_state. exact E.
Qed.

Lemma readStrz_failure enc t include consume eosError s s' e :
  readStrz decode_named enc t include consume eosError s = (Err e, s') ->
  s' = s \/ failed_in_decoder decode_named enc e.
Proof using Type.
  unfold readStrz. run.
  destruct (Uint8Array_new _ _ None) as [u8|e0]; [|intros [= _ <-]; by left].
  destruct (_ =? _).
  - destruct eosError.
    + unfold resolve. cbn. intros [= _ <-]. by left.
    + destruct (mapUint8Array _ s) as [[arr|e0] s0] eqn:E.
      * intros [= Hdec _]. right. by exists arr.
      * intros [= _ <-]. left. eapply mapUint8Array_failure_keeps_state. exact E.
  - assert (Hmap : forall n, match mapUint8Array n s with
                             | (Err _, s0) => s0 = s
                             | _ => True
                             end).
    { intros n. destruct (mapUint8Array n s) as [[arr|e0] s0] eqn:E; [exact I|].
      eapply mapUint8Array_failure_keeps_state. exact E. }
    destruct include.
    + specialize (Hmap (scan_terminator
        (Z.to_nat (byteLength s - position s)) u8 t
        (byteLength s - position s) 0 + 1)).
      destruct (mapUint8Array _ s) as [[arr|e0] s0].
      * destruct consume; simpl; intros [= Hdec _]; right; by exists arr.
      * intros [= _ <-]. by left.
    + specialize (Hmap (scan_terminator
        (Z.to_nat (byteLength s - position s)) u8 t
        (byteLength s - position s) 0)).
      destruct (mapUint8Array _ s) as [[arr|e0] s0].
      * destruct consume; simpl; intros [= Hdec _]; right; by exists arr.
      * intros [= _ <-]. by left.
Qed.

End FailedStringReads.

(** C7. A numeric reader, [readBytes] or [readBytesFull] that throws leaves
    the stream as it was, and so does a string reader that throws before it
    decodes. The exception is [readStrz] with [include] and [consume] both
    set and an encoding label the decoder rejects: the bytes it took from
    [0x41, 0x42, 0x00, 0x43] are the first three, and [position] is left at
    4, past the fourth byte, which the call never read. *)
Theorem failed_read_position :
  (forall name s s' e, call_reader name s = (Err e, s') -> s' = s) /\
  (forall len s s' e, readBytes len s = (Err e, s') -> s' = s) /\
  (forall s s' e, readBytesFull s = (Err e, s') -> s' = s) /\
  (forall dec enc t include consume eosError s s' e,
     readStrz dec enc t include consume eosError s = (Err e, s') ->
     s' = s \/ failed_in_decoder dec enc e) /\
  mapUint8Array 3 stream_AB0C
  = (Ok [0x41; 0x42; 0x00], set_position 3 stream_AB0C) /\
  readStrz rejecting_decoder (Some "x-unknown"%string) 0 true true false stream_AB0C
  = (Err (DecoderError "x-unknown"), set_position 4 stream_AB0C).
Proof.
  split; [exact numeric_read_failure_keeps_state|].
  split; [exact readBytes_failure_keeps_state|].
  split; [exact readBytesFull_failure_keeps_state|].
  split; [exact readStrz_failure|].
  split; reflexivity.
Qed.

(** ** Byte array processing *)

Import Bits.

(** The loop fills [r] from the left: after [m] turns the first [m] slots
    hold the stored values and the loop state is the [m]-th one. *)
Lemma for_each_index_prefix {S} (n : nat) (body : nat -> S -> Z * S) (st : S)
      (sigma : nat -> S) (v : nat -> Z) (m : nat) :
  sigma O = st ->
  (forall i, (i < n)%nat -> body i (sigma i) = (v i, sigma (Datatypes.S i))) ->
  (m <= n)%nat ->
  foldl (fun acc i =>
           let '(x, st') := body i (snd acc) in
           (<[ i := ToUint8 x ]> (fst acc), st'))
        (replicate n 0, st) (seq 0 m)
  = (map (fun i => ToUint8 (v i)) (seq 0 m) ++ replicate (n - m) 0, sigma m).
Proof.
  intros H0 Hstep. induction m as [|m IH]; intros Hm.
  - simpl. rewrite Nat.sub_0_r, H0. reflexivity.
  - rewrite seq_S, foldl_app, IH by lia. simpl.
    rewrite Hstep by lia. f_equal.
    rewrite map_app, <- app_assoc. simpl.
    rewrite insert_app_r_alt by (rewrite length_map, length_seq; lia).
    rewrite length_map, length_seq, Nat.sub_diag.
    replace (n - m)%nat with (Datatypes.S (n - Datatypes.S m)) by lia.
    reflexivity.
Qed.

Lemma for_each_index_run {S} (n : nat) (body : nat -> S -> Z * S) (st : S)
      (sigma : nat -> S) (v : nat -> Z) :
  sigma O = st ->
  (forall i, (i < n)%nat -> body i (sigma i) = (v i, sigma (Datatypes.S i))) ->
  for_each_index n body st = (map (fun i => ToUint8 (v i)) (seq 0 n), sigma n).
Proof.
  intros H0 Hstep. unfold for_each_index.
  rewrite (for_each_index_prefix n body st sigma v n H0 Hstep) by lia.
  rewrite Nat.sub_diag. simpl. rewrite app_nil_r. reflexivity.
Qed.

(** Reading [data[i]] for every index of [data] visits its elements. *)
Lemma map_seq_lookup {B} (g : option Z -> B) (data : list Z) :
  map (fun i => g (data !! i)) (seq 0 (length data))
  = map (fun d => g (Some d)) data.
Proof.
  apply list_eq. intros i.
  change (map ?f ?l) with (f <$> l). rewrite !list_lookup_fmap.
  destruct (data !! i) as [d|] eqn:E.
  - rewrite lookup_seq_lt by (eapply lookup_lt_Some; eauto). simpl.
    rewrite E. reflexivity.
  - apply lookup_ge_None in E. rewrite lookup_seq_ge by lia. reflexivity.
Qed.

Lemma processXorOne_map (data : list Z) (key : Z) :
  processXorOne data key = map (fun d => ToUint8 (xor d key)) data.
Proof.
  unfold processXorOne.
  rewrite (for_each_index_run _ _ tt (fun _ => tt)
             (fun i => xor (operand (data !! i)) key)) by reflexivity.
  simpl. apply (map_seq_lookup (fun o => ToUint8 (xor (operand o) key))).
Qed.

Lemma processRotateLeft_map (data : list Z) (amount : Z) :
  processRotateLeft data amount 1
  = Ok (map (fun d => ToUint8 (rotate_expr d amount (and (- amount) 7))) data).
Proof.
  unfold processRotateLeft. simpl.
  rewrite (for_each_index_run _ _ tt (fun _ => tt)
             (fun i => rotate_expr (operand (data !! i)) amount (and (- amount) 7)))
    by reflexivity.
  simpl. f_equal.
  apply (map_seq_lookup
           (fun o => ToUint8 (rotate_expr (operand o) amount (and (- amount) 7)))).
Qed.

(** *** Bit-level facts *)

Lemma ToInt32_small (z : Z) : - 2 ^ 31 <= z < 2 ^ 31 -> ToInt32 z = z.
Proof.
  unfold ToInt32. change (2 ^ 31) with 2147483648.
  change (2 ^ 32) with 4294967296. intros H.
  Z.div_mod_to_equations. lia.
Qed.

Lemma ToUint8_land (z : Z) : ToUint8 z = Z.land z 255.
Proof. unfold ToUint8. change 255 with (Z.ones 8). rewrite Z.land_ones; [reflexivity|lia]. Qed.

Lemma ToUint8_byte (z : Z) : is_byte z -> ToUint8 z = z.
Proof. unfold is_byte, ToUint8. intros H. apply Z.mod_small. lia. Qed.

Lemma ToUint8_is_byte (z : Z) : is_byte (ToUint8 z).
Proof. unfold is_byte, ToUint8. apply Z.mod_pos_bound. lia. Qed.

Lemma ToUint8_ToInt32 (z : Z) : ToUint8 (ToInt32 z) = ToUint8 z.
Proof.
  unfold ToUint8, ToInt32. change (2 ^ 31) with 2147483648.
  change (2 ^ 32) with 4294967296.
  Z.div_mod_to_equations. lia.
Qed.

Lemma lxor_land_distr (a b c : Z) :
  Z.land (Z.lxor a b) c = Z.lxor (Z.land a c) (Z.land b c).
Proof.
  apply Z.bits_inj'. intros n Hn.
  rewrite Z.lxor_spec, !Z.land_spec, Z.lxor_spec.
  destruct (Z.testbit a n), (Z.testbit b n), (Z.testbit c n); reflexivity.
Qed.

(** Storing [a ^ b] keeps the low eight bits of both operands. *)
Lemma ToUint8_xor (a b : Z) :
  ToUint8 (xor a b) = Z.lxor (ToUint8 a) (ToUint8 b).
Proof.
  unfold xor.
  rewrite ToUint8_land, lxor_land_distr, <- !ToUint8_land, !ToUint8_ToInt32.
  reflexivity.
Qed.

Lemma xor_twice (d key : Z) :
  is_byte d -> ToUint8 (xor (ToUint8 (xor d key)) key) = d.
Proof.
  intros Hd. rewrite !ToUint8_xor.
  rewrite (ToUint8_byte (Z.lxor _ _)).
  - rewrite Z.lxor_assoc, Z.lxor_nilpotent, Z.lxor_0_r.
    apply ToUint8_byte; assumption.
  - rewrite <- ToUint8_xor. apply ToUint8_is_byte.
Qed.

(** C10. [processXorOne] applied twice with the same key gives back the
    byte sequence it started from. *)
Theorem processXorOne_involution (data : list Z) (key : Z) :
  Forall is_byte data -> is_byte key ->
  processXorOne (processXorOne data key) key = data.
Proof.
  intros Hdata _. rewrite !processXorOne_map, map_map.
  induction Hdata as [|d data Hd _ IH]; simpl; [reflexivity|].
  rewrite xor_twice by assumption. rewrite IH. reflexivity.
Qed.

Lemma processXorOne_involution_witness :
  processXorOne (processXorOne [0x00; 0x5a; 0xff] 0xa5) 0xa5 = [0x00; 0x5a; 0xff].
Proof.
  apply (processXorOne_involution [0x00; 0x5a; 0xff] 0xa5).
  - repeat constructor; unfold is_byte; lia.
  - unfold is_byte; lia.
Defined.

(** *** The repeating key *)

(** The key index of [processXorMany] after [m] turns is [m mod kl]. *)
Lemma key_index_step (kl m : nat) :
  (0 < kl)%nat ->
  (if (kl <=? Datatypes.S (m mod kl))%nat then O else Datatypes.S (m mod kl))
  = (Datatypes.S m mod kl)%nat.
Proof.
  intros Hkl.
  pose proof (Nat.mod_upper_bound m kl ltac:(lia)) as Hlt.
  pose proof (Nat.div_mod_eq m kl) as Hdm.
  destruct (Nat.leb_spec kl (Datatypes.S (m mod kl))) as [Hle|Hgt].
  - apply (Nat.mod_unique _ kl (Datatypes.S (m / kl))); nia.
  - apply (Nat.mod_unique _ kl (m / kl)); nia.
Qed.

Lemma processXorMany_map (data key : list Z) :
  key <> [] ->
  processXorMany data key
  = map (fun i => ToUint8 (xor (operand (data !! i))
                               (operand (key !! (i mod length key)%nat))))
        (seq 0 (length data)).
Proof.
  intros Hkey.
  assert (Hkl : (0 < length key)%nat) by (destruct key; simpl; [congruence|lia]).
  unfold processXorMany.
  rewrite (for_each_index_run _ _ O (fun i => (i mod length key)%nat)
             (fun i => xor (operand (data !! i))
                           (operand (key !! (i mod length key)%nat)))).
  - reflexivity.
  - apply Nat.Div0.mod_0_l.
  - intros i _. f_equal. apply key_index_step. assumption.
Qed.

(** C8. [processXorMany] returns as many bytes as [data] has, and its
    [i]-th byte is [data[i]] XOR [key[i mod key.length]]. *)
Theorem processXorMany_spec (data key : list Z) :
  (1 <= length key)%nat -> Forall is_byte data -> Forall is_byte key ->
  length (processXorMany data key) = length data /\
  forall (i : nat) (d : Z),
    data !! i = Some d ->
    exists k, key !! (i mod length key)%nat = Some k /\
              processXorMany data key !! i = Some (Z.lxor d k).
Proof.
  intros Hkl Hdata Hkey.
  assert (Hne : key <> []) by (destruct key; simpl in *; [lia|congruence]).
  rewrite processXorMany_map by assumption. split.
  - rewrite length_map, length_seq. reflexivity.
  - intros i d Hd.
    destruct (lookup_lt_is_Some_2 key (i mod length key)%nat) as [k Hk].
    { apply Nat.mod_upper_bound. lia. }
    exists k. split; [assumption|].
    change (map ?f ?l) with (f <$> l). rewrite list_lookup_fmap.
    rewrite lookup_seq_lt by (eapply lookup_lt_Some; eauto). simpl.
    rewrite Hd, Hk. simpl. f_equal.
    rewrite ToUint8_xor.
    rewrite (ToUint8_byte d) by exact (Forall_lookup_1 _ _ _ _ Hdata Hd).
    rewrite (ToUint8_byte k) by exact (Forall_lookup_1 _ _ _ _ Hkey Hk).
    reflexivity.
Qed.

Lemma processXorMany_spec_witness :
  processXorMany [0x01; 0x02; 0x03] [0xFF; 0x00] = [0xFE; 0x02; 0xFC] /\
  length (processXorMany [0x01; 0x02; 0x03] [0xFF; 0x00]) = 3%nat /\
  exists k, [0xFF; 0x00] !! (2 mod 2)%nat = Some k /\
            processXorMany [0x01; 0x02; 0x03] [0xFF; 0x00] !! 2%nat
            = Some (Z.lxor 0x03 k).
Proof.
  assert (Hd : Forall is_byte [0x01; 0x02; 0x03])
    by (repeat constructor; unfold is_byte; lia).
  assert (Hk : Forall is_byte [0xFF; 0x00])
    by (repeat constructor; unfold is_byte; lia).
  assert (Hl : (1 <= length [0xFF; 0x00])%nat) by (simpl; lia).
  split; [reflexivity|].
  destruct (processXorMany_spec [0x01; 0x02; 0x03] [0xFF; 0x00] Hl Hd Hk)
    as [Hlen Hith].
  split; [exact Hlen|].
  exact (Hith 2%nat 0x03 eq_refl).
Defined.

(** *** Rotation *)

(** The code's expression sees [amount] only through [amount mod 32]: the
    shift count of [<<] is taken modulo 32, and [-amount & 7] modulo 8. *)
Lemma and_7 (x : Z) : and x 7 = x mod 8.
Proof.
  unfold and. change (ToInt32 7) with (Z.ones 3).
  rewrite Z.land_ones by lia. unfold ToInt32.
  change (2 ^ 31) with 2147483648. change (2 ^ 32) with 4294967296.
  change (2 ^ 3) with 8. Z.div_mod_to_equations. lia.
Qed.

Lemma rotate_expr_mod32 (d amount : Z) :
  rotate_expr d amount (and (- amount) 7)
  = rotate_expr d (amount mod 32) (and (- (amount mod 32)) 7).
Proof.
  unfold rotate_expr. rewrite !and_7.
  replace ((- (amount mod 32)) mod 8) with ((- amount) mod 8)
    by (Z.div_mod_to_equations; lia).
  unfold shl.
  replace (ToUint32 (amount mod 32) mod 32) with (ToUint32 amount mod 32);
    [reflexivity|].
  unfold ToUint32. change (2 ^ 32) with 4294967296.
  Z.div_mod_to_equations. lia.
Qed.

(** For the shifts 0 to 8 and every byte, by running both sides. *)
Lemma rotate_table :
  forallb (fun k => forallb (rotate_agrees k) (seq 0 256)) (seq 0 9) = true.
Proof. vm_compute. reflexivity. Qed.

Lemma rotate_expr_small (d k : Z) :
  is_byte d -> 0 <= k <= 8 ->
  ToUint8 (rotate_expr d k (and (- k) 7)) = rotate_left_by (Z.to_nat k) d.
Proof.
  intros Hd Hk. pose proof rotate_table as Ht.
  rewrite forallb_forall in Ht.
  specialize (Ht (Z.to_nat k)). rewrite forallb_forall in Ht.
  specialize (Ht ltac:(apply in_seq; lia) (Z.to_nat d)
                 ltac:(apply in_seq; unfold is_byte in Hd; lia)).
  unfold rotate_agrees in Ht. apply Z.eqb_eq in Ht.
  unfold is_byte in Hd. rewrite !Z2Nat.id in Ht by lia. exact Ht.
Qed.

(** Eight single rotations bring every byte back. *)
Lemma rotate_left_by_8 (b : Z) : is_byte b -> rotate_left_by 8 b = b.
Proof.
  intros Hb.
  assert (Ht : forallb (fun d => rotate_left_by 8 (Z.of_nat d) =? Z.of_nat d)
                       (seq 0 256) = true) by (vm_compute; reflexivity).
  rewrite forallb_forall in Ht.
  specialize (Ht (Z.to_nat b) ltac:(apply in_seq; unfold is_byte in Hb; lia)).
  apply Z.eqb_eq in Ht. unfold is_byte in Hb.
  rewrite !Z2Nat.id in Ht by lia. exact Ht.
Qed.

Lemma rotate_left_by_period (q r : nat) (b : Z) :
  is_byte b -> rotate_left_by (r + 8 * q) b = rotate_left_by r b.
Proof.
  intros Hb. unfold rotate_left_by. rewrite Nat.iter_add. f_equal.
  induction q as [|q IH]; [reflexivity|].
  replace (8 * Datatypes.S q)%nat with (8 + 8 * q)%nat by lia.
  rewrite Nat.iter_add, IH. apply rotate_left_by_8. assumption.
Qed.

(** For the shifts 16 and 24 and every byte, by running both sides. *)
Lemma rotate_table_16_24 :
  forallb (rotate_agrees 16) (seq 0 256) && forallb (rotate_agrees 24) (seq 0 256)
  = true.
Proof. vm_compute. reflexivity. Qed.

Lemma rotate_expr_16_24 (d k : Z) :
  is_byte d -> k = 16 \/ k = 24 ->
  ToUint8 (rotate_expr d k (and (- k) 7)) = rotate_left_by (Z.to_nat k) d.
Proof.
  intros Hd Hk. pose proof rotate_table_16_24 as Ht.
  apply andb_true_iff in Ht as [H16 H24].
  rewrite forallb_forall in H16, H24. unfold is_byte in Hd.
  assert (Hin : In (Z.to_nat d) (seq 0 256)) by (apply in_seq; lia).
  destruct Hk as [-> | ->];
    [specialize (H16 _ Hin); unfold rotate_agrees in H16; apply Z.eqb_eq in H16;
     rewrite Z2Nat.id in H16 by lia; exact H16
    |specialize (H24 _ Hin); unfold rotate_agrees in H24; apply Z.eqb_eq in H24;
     rewrite Z2Nat.id in H24 by lia; exact H24].
Qed.

Lemma rotates_cases (amount : Z) :
  rotates amount = true ->
  0 <= amount mod 32 <= 8 \/ amount mod 32 = 16 \/ amount mod 32 = 24.
Proof.
  unfold rotates. intros H.
  pose proof (Z.mod_pos_bound amount 32 ltac:(lia)) as Hb.
  apply orb_true_iff in H as [H|H]; [apply orb_true_iff in H as [H|H]|].
  - apply Z.leb_le in H. lia.
  - apply Z.eqb_eq in H. lia.
  - apply Z.eqb_eq in H. lia.
Qed.

(** On a shift that [rotates], the expression of the code is the
    rotation. *)
Lemma rotate_byte_Z (d amount : Z) :
  is_byte d -> rotates amount = true ->
  ToUint8 (rotate_expr d amount (and (- amount) 7)) = rotate_left_Z amount d.
Proof.
  intros Hd Hrot. apply rotates_cases in Hrot.
  rewrite rotate_expr_mod32.
  assert (Hstep : ToUint8 (rotate_expr d (amount mod 32)
                                       (and (- (amount mod 32)) 7))
                  = rotate_left_by (Z.to_nat (amount mod 32)) d).
  { destruct Hrot as [Hsmall | Hbig].
    - apply rotate_expr_small; assumption.
    - apply rotate_expr_16_24; assumption. }
  rewrite Hstep. unfold rotate_left_Z.
  replace (Z.to_nat (amount mod 32))
    with (Z.to_nat (amount mod 8) + 8 * Z.to_nat (amount mod 32 / 8))%nat
    by (Z.div_mod_to_equations; lia).
  apply rotate_left_by_period. assumption.
Qed.

(** For a shift that is not negative, rotating by it modulo 8 is rotating
    one position that many times. *)
Lemma rotate_left_Z_iter (d amount : Z) :
  is_byte d -> 0 <= amount ->
  rotate_left_Z amount d = rotate_left_by (Z.to_nat amount) d.
Proof.
  intros Hd Hpos. unfold rotate_left_Z.
  replace (Z.to_nat amount)
    with (Z.to_nat (amount mod 8) + 8 * Z.to_nat (amount / 8))%nat
    by (Z.div_mod_to_equations; lia).
  symmetry. apply rotate_left_by_period. assumption.
Qed.

(** On every other shift the byte 1 comes out as 0, which no rotation of
    it is: by running the 32 shift counts and the 8 rotations. *)
Lemma rotate_one_table :
  forallb (fun k => rotates (Z.of_nat k)
                    || (ToUint8 (rotate_expr 1 (Z.of_nat k) (and (- Z.of_nat k) 7)) =? 0))
          (seq 0 32)
  && forallb (fun k => negb (rotate_left_by k 1 =? 0)) (seq 0 8)
  = true.
Proof. vm_compute. reflexivity. Qed.

Lemma rotate_one_fails (amount : Z) :
  rotates amount = false ->
  ToUint8 (rotate_expr 1 amount (and (- amount) 7)) = 0 /\
  rotate_left_Z amount 1 <> 0.
Proof.
  intros Hrot. pose proof rotate_one_table as Ht.
  apply andb_true_iff in Ht as [Hcode Hspec].
  rewrite forallb_forall in Hcode, Hspec.
  pose proof (Z.mod_pos_bound amount 32 ltac:(lia)) as H32.
  pose proof (Z.mod_pos_bound amount 8 ltac:(lia)) as H8.
  split.
  - rewrite rotate_expr_mod32.
    specialize (Hcode (Z.to_nat (amount mod 32)) ltac:(apply in_seq; lia)).
    rewrite Z2Nat.id in Hcode by lia.
    assert (Hsame : rotates (amount mod 32) = rotates amount)
      by (unfold rotates; rewrite Z.mod_mod by lia; reflexivity).
    rewrite Hsame, Hrot in Hcode. simpl in Hcode.
    apply Z.eqb_eq in Hcode. exact Hcode.
  - unfold rotate_left_Z.
    specialize (Hspec (Z.to_nat (amount mod 8)) ltac:(apply in_seq; lia)).
    apply negb_true_iff, Z.eqb_neq in Hspec. exact Hspec.
Qed.

(** C9, as the code has it. Every group size other than 1 throws the
    "unable to rotate group" string, whatever the data and the shift.
    With a group size of 1 and a shift [amount] whose value modulo 32 is 0
    to 8, 16 or 24, every byte of the result is the byte of [data] rotated
    left by [amount] positions, and the result is as long as [data]. On
    every other shift the code does not rotate: the byte 1 comes out as
    0. *)
Theorem processRotateLeft_spec (data : list Z) (amount : Z) :
  (forall groupSize, groupSize <> 1 ->
     processRotateLeft data amount groupSize
     = Err (UnableToRotateString groupSize)) /\
  (Forall is_byte data -> rotates amount = true ->
     processRotateLeft data amount 1 = Ok (map (rotate_left_Z amount) data) /\
     length (map (rotate_left_Z amount) data) = length data /\
     (0 <= amount ->
      map (rotate_left_Z amount) data
      = map (rotate_left_by (Z.to_nat amount)) data)) /\
  (rotates amount = false ->
     processRotateLeft [0x01] amount 1 = Ok [0x00] /\
     rotate_left_Z amount 0x01 <> 0x00).
Proof.
  split; [|split].
  - intros g Hg. unfold processRotateLeft.
    rewrite (proj2 (Z.eqb_neq g 1) Hg). reflexivity.
  - intros Hdata Hrot. split; [|split].
    + rewrite processRotateLeft_map. f_equal.
      induction Hdata as [|d data Hd _ IH]; simpl; [reflexivity|].
      rewrite rotate_byte_Z by assumption. rewrite IH. reflexivity.
    + apply length_map.
    + intros Hpos.
      induction Hdata as [|d data Hd _ IH]; simpl; [reflexivity|].
      rewrite rotate_left_Z_iter by assumption. rewrite IH. reflexivity.
  - intros Hrot. destruct (rotate_one_fails amount Hrot) as [Hcode Hspec].
    split; [|exact Hspec].
    rewrite processRotateLeft_map. simpl. rewrite Hcode. reflexivity.
Qed.

Lemma processRotateLeft_spec_witness :
  processRotateLeft [0x01] 1 2 = Err (UnableToRotateString 2) /\
  processRotateLeft [0x01] 1 1 = Ok [0x02] /\
  processRotateLeft [0x81; 0x0F] 16 1 = Ok [0x81; 0x0F] /\
  processRotateLeft [0x81; 0x0F] (-31) 1 = Ok [0x03; 0x1E] /\
  processRotateLeft [0x01] 12 1 = Ok [0x00].
Proof.
  assert (Hone : Forall is_byte [0x01])
    by (repeat constructor; unfold is_byte; lia).
  assert (Htwo : Forall is_byte [0x81; 0x0F])
    by (repeat constructor; unfold is_byte; lia).
  split; [|split; [|split; [|split]]].
  - apply (processRotateLeft_spec [0x01] 1). discriminate.
  - apply (processRotateLeft_spec [0x01] 1); [exact Hone|reflexivity].
  - apply (processRotateLeft_spec [0x81; 0x0F] 16); [exact Htwo|reflexivity].
  - apply (processRotateLeft_spec [0x81; 0x0F] (-31)); [exact Htwo|reflexivity].
  - apply (processRotateLeft_spec [0x01] 12). reflexivity.
Defined.

(** C9, counterexample: rotating the byte [0b00000001] left by 9 positions
    gives [0b00000010], but [processRotateLeft([1], 9, 1)] gives [0]. *)
Lemma processRotateLeft_by_9 :
  processRotateLeft [0x01] 9 1 = Ok [0x00] /\
  map (rotate_left_by 9) [0x01] = [0x02].
Proof. split; reflexivity. Qed.

(** ** The pass-through decoding *)

Lemma fromCharCode_app (a b : list Z) :
  fromCharCode (a ++ b) = (fromCharCode a ++ fromCharCode b)%string.
Proof.
  unfold fromCharCode. rewrite map_app.
  induction (map _ a) as [|c l IH]; [reflexivity|].
  change (String c (string_of_list_ascii (l ++ map (fun c => ascii_of_N (Z.to_N c)) b))
          = String c (String.append (string_of_list_ascii l)
                        (string_of_list_ascii (map (fun c => ascii_of_N (Z.to_N c)) b)))).
  rewrite IH. reflexivity.
Qed.

Lemma append_empty_r (x : string) : String.append x EmptyString = x.
Proof.
  induction x as [|a x IH]; [reflexivity|].
  change (String a (String.append x EmptyString) = String a x).
  rewrite IH. reflexivity.
Qed.

Lemma append_append (x y z : string) :
  String.append (String.append x y) z = String.append x (String.append y z).
Proof.
  induction x as [|a x IH]; [reflexivity|].
  change (String a (String.append (String.append x y) z)
          = String a (String.append x (String.append y z))).
  rewrite IH. reflexivity.
Qed.

Lemma join_empty_snoc (chunks : list string) (c : string) :
  join_empty (chunks ++ [c]) = String.append (join_empty chunks) c.
Proof.
  unfold join_empty. induction chunks as [|x chunks IH]; simpl.
  - apply append_empty_r.
  - rewrite IH, append_append. reflexivity.
Qed.

(** The chunks collected so far spell the bytes before [i]; the loop ends
    with all of them. *)
Lemma createStringFromArray_loop_spec (fuel : nat) (array : list Z) (i : Z)
      (chunks : list string) :
  0 <= i -> (Z.to_nat (byteLengthOf array - i) <= fuel)%nat ->
  join_empty chunks = fromCharCode (take (Z.to_nat i) array) ->
  join_empty (createStringFromArray_loop fuel array i chunks)
  = fromCharCode array.
Proof.
  assert (Hcs : 0 < chunk_size) by reflexivity.
  revert i chunks. induction fuel as [|fuel IH]; intros i chunks Hi Hfuel Hinv.
  - cbn [createStringFromArray_loop]. rewrite Hinv.
    rewrite take_ge by (unfold byteLengthOf in Hfuel; lia). reflexivity.
  - cbn [createStringFromArray_loop].
    destruct (Z.ltb_spec i (byteLengthOf array)) as [Hlt|Hge].
    + apply IH; [lia|lia|].
      rewrite join_empty_snoc, Hinv, <- fromCharCode_app.
      unfold subarray, bytes_at.
      rewrite take_take_drop. f_equal. f_equal. lia.
    + rewrite Hinv.
      rewrite take_ge by (unfold byteLengthOf in Hge; lia). reflexivity.
Qed.

(** Chunked or not, [createStringFromArray] maps each byte to the
    character with that code. *)
Lemma createStringFromArray_fromCharCode (array : list Z) :
  createStringFromArray array = fromCharCode array.
Proof.
  unfold createStringFromArray.
  apply createStringFromArray_loop_spec; [lia| |reflexivity].
  unfold byteLengthOf. lia.
Qed.

Lemma arrayToString_default (decode_named : string -> list Z -> result string)
      (arr : list Z) :
  arrayToString decode_named arr None = Ok (fromCharCode arr) /\
  arrayToString decode_named arr (Some "ASCII"%string) = Ok (fromCharCode arr).
Proof.
  unfold arrayToString. simpl.
  rewrite createStringFromArray_fromCharCode. split; reflexivity.
Qed.


(** * Further properties of the file *)

(** ** Construction *)

(** X1. Constructing a stream over an [ArrayBuffer] succeeds exactly when
    the offset (0 when missing) lies within the buffer, and throws the
    host's RangeError otherwise. The stream starts at position 0, its view
    is the buffer from the offset on, and the DataView of the numeric
    readers covers exactly that view. *)
Theorem KaitaiStream_new_ArrayBuffer_spec (buf : ArrayBuffer) (off : option Z) :
  (0 <= or_default off 0 <= byteLengthOf buf ->
   exists s, KaitaiStream_new (OfArrayBuffer buf) off = Ok s /\
             cursor_in_view s /\ position s = 0 /\
             view s = drop (Z.to_nat (or_default off 0)) buf /\
             dataview_matches s /\ dataview_ok s) /\
  (~ (0 <= or_default off 0 <= byteLengthOf buf) ->
   KaitaiStream_new (OfArrayBuffer buf) off = Err RangeError).
Proof.
  unfold KaitaiStream_new, set_buffer, DataView_new. split.
  - intros [H0 H1].
    rewrite (Zltb_false _ 0 H0), (Zltb_false _ _ H1). simpl.
    eexists. split; [reflexivity|].
    unfold cursor_in_view, stream_ok, dataview_matches, dataview_ok,
      view, byteLength, bytes_at; simpl.
    repeat split; try lia.
    apply take_ge. rewrite length_drop. unfold byteLengthOf in *. lia.
  - intros Hout.
    destruct (Z.ltb_spec (or_default off 0) 0); simpl; [reflexivity|].
    destruct (Z.ltb_spec (byteLengthOf buf) (or_default off 0)); [reflexivity|lia].
Qed.

(** X2. Constructing a stream over a DataView of [vlen] bytes at [voff],
    with a further offset [b] into it: the view is the DataView's bytes
    from [b] on, but the DataView the numeric readers use starts at [voff]
    and runs to the end of the buffer. *)
Theorem KaitaiStream_new_DataView_spec (buf : ArrayBuffer) (voff vlen b : Z) :
  0 <= voff -> 0 <= vlen -> voff + vlen <= byteLengthOf buf -> 0 <= b <= vlen ->
  exists s, KaitaiStream_new (OfDataView buf voff vlen) (Some b) = Ok s /\
            cursor_in_view s /\ position s = 0 /\
            byteLength s = vlen - b /\
            view s = bytes_at buf (voff + b) (vlen - b) /\
            _dataView s = mkDataView voff (byteLengthOf buf - voff).
Proof.
  intros Hvoff Hvlen Hin Hb.
  unfold KaitaiStream_new, DataView_new.
  rewrite (Zltb_false voff 0), Zltb_false by lia. simpl.
  eexists. split; [reflexivity|].
  unfold cursor_in_view, stream_ok, view, byteLength; simpl.
  destruct (Z.eqb_spec b 0) as [->|Hne]; simpl;
    repeat split; try lia; (f_equal; lia).
Qed.

Lemma KaitaiStream_new_DataView_spec_witness :
  exists s, KaitaiStream_new (OfDataView [1; 2; 3; 4; 5; 6; 7; 8] 2 4) (Some 1) = Ok s /\
            cursor_in_view s /\ position s = 0 /\
            byteLength s = 4 - 1 /\
            view s = bytes_at [1; 2; 3; 4; 5; 6; 7; 8] (2 + 1) (4 - 1) /\
            _dataView s = mkDataView 2 (byteLengthOf [1; 2; 3; 4; 5; 6; 7; 8] - 2).
Proof.
  apply (KaitaiStream_new_DataView_spec [1; 2; 3; 4; 5; 6; 7; 8] 2 4 1);
    unfold byteLengthOf; simpl; lia.
Defined.

(** ** Numeric readers *)

Lemma DataView_bytes_matching (s : KaitaiStream) (n : Z) :
  stream_ok s -> dataview_matches s -> 0 <= n ->
  DataView_bytes (_buffer s) (_dataView s) (position s) n
  = if byteLength s <? position s + n then Err RangeError
    else Ok (bytes_at (view s) (position s) n).
Proof.
  intros Hok [Hoff Hlen] Hn. pose proof Hok as (H0 & H1 & H2 & H3).
  unfold DataView_bytes. rewrite (Zltb_false (position s) 0 H3), Hlen, Hoff.
  destruct (Z.ltb_spec (byteLength s) (position s + n)); [reflexivity|].
  rewrite buffer_slice_in_view by (assumption || lia). reflexivity.
Qed.

Lemma read_fixed_via_readBytes (n : Z) (le : bool) (wrap : Z -> number) (s : KaitaiStream) :
  stream_ok s -> dataview_matches s -> 0 <= n ->
  read_fixed n le wrap s
  = via_readBytes n (fun bs => wrap (if le then le_value bs else be_value bs)) s.
Proof.
  intros Hok Hm Hn. rewrite read_fixed_run. unfold via_readBytes, readBytes.
  unfold DataView_getUint. rewrite DataView_bytes_matching by assumption.
  destruct (Z.ltb_spec (byteLength s) (position s + n)).
  - rewrite mapUint8Array_short by lia. reflexivity.
  - rewrite mapUint8Array_fits by (assumption || lia). reflexivity.
Qed.

(** X3. On a stream whose DataView covers exactly its view, every numeric
    reader returns the little- or big-endian value of the bytes that
    [readBytes] of its width returns, leaves the stream where [readBytes]
    leaves it, and fails exactly when [readBytes] fails (with the host's
    RangeError where [readBytes] throws [KaitaiEOFError]). *)
Theorem numeric_readers_via_readBytes (s : KaitaiStream) :
  stream_ok s -> dataview_matches s ->
  readU1 s = via_readBytes 1 (fun bs => Int (be_value bs)) s /\
  readU2le s = via_readBytes 2 (fun bs => Int (le_value bs)) s /\
  readU2be s = via_readBytes 2 (fun bs => Int (be_value bs)) s /\
  readU4le s = via_readBytes 4 (fun bs => Int (le_value bs)) s /\
  readU4be s = via_readBytes 4 (fun bs => Int (be_value bs)) s /\
  readF4le s = via_readBytes 4 (fun bs => Float32 (le_value bs)) s /\
  readF4be s = via_readBytes 4 (fun bs => Float32 (be_value bs)) s /\
  readF8le s = via_readBytes 8 (fun bs => Float64 (le_value bs)) s /\
  readF8be s = via_readBytes 8 (fun bs => Float64 (be_value bs)) s.
Proof.
  intros Hok Hm.
  repeat split;
    match goal with
    | |- ?r s = via_readBytes ?n _ s =>
        exact (read_fixed_via_readBytes n _ _ s Hok Hm ltac:(lia))
    end.
Qed.

Lemma numeric_readers_via_readBytes_witness :
  readU2le stream_AB0C = (Ok (Int 0x4241), set_position 2 stream_AB0C) /\
  readU4be stream_AB0C = (Ok (Int 0x41420043), set_position 4 stream_AB0C) /\
  readF8le stream_AB0C = (Err RangeError, stream_AB0C).
Proof.
  assert (Hm : dataview_matches stream_AB0C) by (split; reflexivity).
  destruct (numeric_readers_via_readBytes stream_AB0C stream_AB0C_ok Hm)
    as (_ & H2le & _ & _ & H4be & _ & _ & H8le & _).
  rewrite H2le, H4be, H8le. repeat split.
Defined.

Lemma le_value_bound (bs : list Z) :
  Forall is_byte bs -> 0 <= le_value bs < 256 ^ Z.of_nat (length bs).
Proof.
  induction 1 as [|b bs Hb _ IH]; [simpl; lia|].
  cbn [le_value length]. rewrite Nat2Z.inj_succ, Z.pow_succ_r by lia.
  unfold is_byte in Hb. nia.
Qed.

Lemma be_value_bound (bs : list Z) :
  Forall is_byte bs -> 0 <= be_value bs < 256 ^ Z.of_nat (length bs).
Proof.
  intros H. unfold be_value. rewrite <- length_rev.
  apply le_value_bound. apply Forall_rev. exact H.
Qed.

Lemma bytes_at_bytes (buf : list Z) (from len : Z) :
  Forall is_byte buf -> Forall is_byte (bytes_at buf from len).
Proof. intros H. unfold bytes_at. apply Forall_take, Forall_drop, H. Qed.

Lemma bytes_at_length_le (buf : list Z) (from len : Z) :
  0 <= len -> Z.of_nat (length (bytes_at buf from len)) <= len.
Proof. intros H. unfold bytes_at. rewrite length_take. lia. Qed.

(** As [call_reader_cases], with what the reader wraps its integer in. *)
Lemma call_reader_wraps (name : string) (n : Z) :
  reader_width name = Some n ->
  0 < n /\
  exists le wrap, (forall z, number_bits (wrap z) = z) /\
                  call_reader name = read_fixed n le wrap.
Proof.
  unfold call_reader, reader_width, prototype_readers.
  cbn -[String.eqb].
  repeat (destruct (String.eqb _ name);
          [intros [= <-]; split; [lia|];
           do 2 eexists; split; [|reflexivity]; intros z; reflexivity | ]).
  discriminate.
Qed.

(** X4. On a buffer of bytes, what a numeric reader of width [n] returns
    (the integer, or the bit pattern of the float) lies in [0, 256^n): a
    reader never returns a negative or an oversized value. *)
Theorem numeric_reader_range (name : string) (n : Z) (s s' : KaitaiStream) (v : number) :
  Forall is_byte (_buffer s) ->
  reader_width name = Some n ->
  call_reader name s = (Ok v, s') ->
  0 <= number_bits v < 256 ^ n.
Proof.
  intros Hbytes Hw.
  destruct (call_reader_wraps name n Hw) as (Hn & le & wrap & Hwrap & ->).
  rewrite read_fixed_run. unfold DataView_getUint, DataView_bytes.
  destruct (position s <? 0); [discriminate|].
  destruct (_ <? _); [discriminate|].
  intros [= <- _]. rewrite Hwrap.
  set (bs := bytes_at _ _ _).
  assert (Hbs : Forall is_byte bs) by (apply bytes_at_bytes; assumption).
  assert (Hlen : Z.of_nat (length bs) <= n) by (apply bytes_at_length_le; lia).
  assert (Hpow : 256 ^ Z.of_nat (length bs) <= 256 ^ n)
    by (apply Z.pow_le_mono_r; lia).
  destruct le; [pose proof (le_value_bound bs Hbs) | pose proof (be_value_bound bs Hbs)];
    lia.
Qed.

Lemma numeric_reader_range_witness :
  0 <= number_bits (Int 0x4241) < 256 ^ 2.
Proof.
  apply (numeric_reader_range "readU2le" 2 stream_AB0C (set_position 2 stream_AB0C)).
  - repeat constructor; unfold is_byte; lia.
  - reflexivity.
  - reflexivity.
Defined.

Lemma numeric_reader_cases_by_width (name : string) (n : Z) (s : KaitaiStream) :
  reader_width name = Some n ->
  (0 <= position s /\ position s + n <= dv_byteLength (_dataView s) /\
   exists v, call_reader name s = (Ok v, set_position (position s + n) s)) \/
  ((position s < 0 \/ dv_byteLength (_dataView s) < position s + n) /\
   call_reader name s = (Err RangeError, s)).
Proof.
  intros Hw.
  destruct (call_reader_wraps name n Hw) as (Hn & le & wrap & _ & ->).
  rewrite read_fixed_run. unfold DataView_getUint, DataView_bytes.
  destruct (Z.ltb_spec (position s) 0); [right; split; [lia|reflexivity]|].
  destruct (Z.ltb_spec (dv_byteLength (_dataView s)) (position s + n));
    [right; split; [lia|reflexivity]|].
  left. repeat split; try lia. eexists; reflexivity.
Qed.

(** X5. What decides the outcome of a numeric reader of width [n] is the
    DataView alone: with a non-negative [position] and [n] bytes of the
    DataView left, it returns and moves [position] forward by [n];
    otherwise it throws the host's RangeError and changes nothing. *)
Theorem numeric_reader_outcome (name : string) (n : Z) (s : KaitaiStream) :
  reader_width name = Some n ->
  (0 <= position s /\ position s + n <= dv_byteLength (_dataView s) /\
   exists v, call_reader name s = (Ok v, set_position (position s + n) s)) \/
  ((position s < 0 \/ dv_byteLength (_dataView s) < position s + n) /\
   call_reader name s = (Err RangeError, s)).
Proof. apply numeric_reader_cases_by_width. Qed.

Lemma numeric_reader_outcome_witness :
  (0 <= position stream_view2 /\
   position stream_view2 + 4 <= dv_byteLength (_dataView stream_view2) /\
   exists v, call_reader "readU4le" stream_view2
             = (Ok v, set_position (position stream_view2 + 4) stream_view2)) \/
  ((position stream_view2 < 0 \/
    dv_byteLength (_dataView stream_view2) < position stream_view2 + 4) /\
   call_reader "readU4le" stream_view2 = (Err RangeError, stream_view2)).
Proof.
  apply (numeric_reader_outcome "readU4le" 4 stream_view2). reflexivity.
Defined.

(** What the constructor builds over a DataView. *)
Lemma KaitaiStream_new_DataView_value (buf : ArrayBuffer) (voff vlen b : Z) :
  0 <= voff -> voff <= byteLengthOf buf ->
  KaitaiStream_new (OfDataView buf voff vlen) (Some b)
  = Ok (mkStream buf (voff + b) (voff + vlen)
                 (mkDataView voff (byteLengthOf buf - voff)) 0).
Proof.
  intros H0 H1. unfold KaitaiStream_new, DataView_new.
  rewrite (Zltb_false voff 0), Zltb_false by lia. simpl.
  destruct (Z.eqb_spec b 0) as [->|Hne]; simpl; repeat f_equal; lia.
Qed.

(** X6. On a stream constructed over a DataView with a further offset [b],
    the numeric readers and [readBytes] read different bytes: [readU1]
    returns the byte at [voff] of the buffer, the first byte of the
    DataView, while [readBytes(1)] returns the byte at [voff + b], the
    first byte of the view. *)
Theorem DataView_offset_readers_disagree (buf : ArrayBuffer) (voff vlen b : Z) :
  0 <= voff -> voff + vlen <= byteLengthOf buf -> 0 <= b -> b + 1 <= vlen ->
  exists s, KaitaiStream_new (OfDataView buf voff vlen) (Some b) = Ok s /\
            readU1 s = (Ok (Int (be_value (bytes_at buf voff 1))), set_position 1 s) /\
            readBytes 1 s = (Ok (bytes_at buf (voff + b) 1), set_position 1 s).
Proof.
  intros H0 Hin Hb Hb1.
  rewrite KaitaiStream_new_DataView_value by lia.
  eexists. split; [reflexivity|]. split.
  - change readU1 with (read_fixed 1 false Int). rewrite read_fixed_run.
    unfold DataView_getUint, DataView_bytes. simpl.
    rewrite Zltb_false by lia. rewrite Z.add_0_r. reflexivity.
  - set (s := mkStream _ _ _ _ _).
    assert (Hok : stream_ok s) by (unfold stream_ok, s; simpl; lia).
    unfold readBytes. rewrite mapUint8Array_fits
      by (try assumption; unfold byteLength, s; simpl; lia).
    rewrite <- buffer_slice_in_view
      by (try assumption; unfold byteLength, s; simpl; lia).
    unfold s; simpl. rewrite Z.add_0_r. reflexivity.
Qed.

Lemma DataView_offset_readers_disagree_witness :
  exists s, KaitaiStream_new (OfDataView [1; 2; 3; 4; 5; 6; 7; 8] 2 4) (Some 1) = Ok s /\
            readU1 s
            = (Ok (Int (be_value (bytes_at [1; 2; 3; 4; 5; 6; 7; 8] 2 1))),
               set_position 1 s) /\
            readBytes 1 s
            = (Ok (bytes_at [1; 2; 3; 4; 5; 6; 7; 8] (2 + 1) 1), set_position 1 s).
Proof.
  apply (DataView_offset_readers_disagree [1; 2; 3; 4; 5; 6; 7; 8] 2 4 1);
    unfold byteLengthOf; simpl; lia.
Defined.

(** ** What a read may change *)

Lemma same_window_refl (s : KaitaiStream) : same_window s s.
Proof. destruct s; reflexivity. Qed.

Lemma same_window_trans (s1 s2 s3 : KaitaiStream) :
  same_window s1 s2 -> same_window s2 s3 -> same_window s1 s3.
Proof.
  unfold same_window. intros H12 H23. rewrite H23 at 1. rewrite H12 at 1.
  reflexivity.
Qed.

Lemma keeps_window_ret {A} (a : A) : keeps_window (ret a).
Proof. intros s. apply same_window_refl. Qed.

Lemma keeps_window_throw {A} (e : exn) : keeps_window (@throw A e).
Proof. intros s. apply same_window_refl. Qed.

Lemma keeps_window_host {A} (r : result A) : keeps_window (host r).
Proof. intros s. apply same_window_refl. Qed.

Lemma keeps_window_this : keeps_window this.
Proof. intros s. apply same_window_refl. Qed.

Lemma keeps_window_assign (p : Z) : keeps_window (assign_position p).
Proof. intros s. reflexivity. Qed.

Lemma keeps_window_bind {A B} (m : M A) (k : A -> M B) :
  keeps_window m -> (forall a, keeps_window (k a)) -> keeps_window (bind m k).
Proof.
  intros Hm Hk s. unfold bind. specialize (Hm s).
  destruct (m s) as [[a|e] s1]; simpl in *.
  - eapply same_window_trans; [exact Hm|apply Hk].
  - exact Hm.
Qed.

Lemma keeps_window_if {A} (b : bool) (m1 m2 : M A) :
  keeps_window m1 -> keeps_window m2 -> keeps_window (if b then m1 else m2).
Proof. destruct b; auto. Qed.

Lemma keeps_window_advance (n : Z) : keeps_window (advance n).
Proof.
  unfold advance.
  apply keeps_window_bind; [apply keeps_window_this|intros s].
  apply keeps_window_assign.
Qed.

Lemma keeps_window_mapUint8Array (len : Z) : keeps_window (mapUint8Array len).
Proof.
  unfold mapUint8Array.
  repeat first [ apply keeps_window_if
               | apply keeps_window_this | apply keeps_window_throw
               | apply keeps_window_host | apply keeps_window_assign
               | apply keeps_window_ret
               | apply keeps_window_bind; [|intros ?] ].
Qed.

Lemma keeps_window_read_fixed n le wrap : keeps_window (read_fixed n le wrap).
Proof.
  unfold read_fixed, dataView_get.
  repeat first [ apply keeps_window_this | apply keeps_window_host
               | apply keeps_window_advance | apply keeps_window_ret
               | apply keeps_window_bind; [|intros ?] ].
Qed.

Lemma keeps_window_call_reader (name : string) : keeps_window (call_reader name).
Proof.
  destruct (call_reader_cases name) as [[_ ->] | (n & le & wrap & _ & _ & ->)].
  - apply keeps_window_throw.
  - apply keeps_window_read_fixed.
Qed.

Lemma keeps_window_readStrz dec enc t include consume eosError :
  keeps_window (readStrz dec enc t include consume eosError).
Proof.
  unfold readStrz, resolve.
  repeat first [ apply keeps_window_if
               | apply keeps_window_this | apply keeps_window_throw
               | apply keeps_window_host | apply keeps_window_ret
               | apply keeps_window_advance
               | apply keeps_window_mapUint8Array
               | apply keeps_window_bind; [|intros ?] ].
Qed.

(** X7. No reader and no positioning call assigns anything but
    [position]: after any of them, on success or failure, the buffer, the
    offset, the length and the DataView of the stream are what they
    were. *)
Theorem reads_change_only_position :
  (forall name, keeps_window (call_reader name)) /\
  (forall len, keeps_window (readBytes len)) /\
  keeps_window readBytesFull /\
  (forall dec enc, keeps_window (readStrEos dec enc)) /\
  (forall dec len enc, keeps_window (readStrByteLimit dec len enc)) /\
  (forall dec enc t include consume eosError,
     keeps_window (readStrz dec enc t include consume eosError)) /\
  (forall pos, keeps_window (seek pos)) /\
  keeps_window isEof.
Proof.
  split; [exact keeps_window_call_reader|].
  split; [exact keeps_window_mapUint8Array|].
  repeat split; intros;
    unfold readBytesFull, readStrEos, readBytesFull, readStrByteLimit,
      readBytes, seek, isEof;
    try apply keeps_window_readStrz;
    repeat first [ apply keeps_window_this | apply keeps_window_host
                 | apply keeps_window_assign | apply keeps_window_ret
                 | apply keeps_window_mapUint8Array
                 | apply keeps_window_bind; [|intros ?] ].
Qed.

(** ** The cursor and the view *)

Lemma cursor_in_view_set (s : KaitaiStream) (p : Z) :
  stream_ok s -> 0 <= p <= byteLength s -> cursor_in_view (set_position p s).
Proof.
  intros (H0 & H1 & H2 & _) Hp.
  unfold cursor_in_view, stream_ok, byteLength in *. simpl. lia.
Qed.

Lemma seek_lands_in_view (pos : jsnum) (s : KaitaiStream) :
  0 <= byteLength s ->
  exists p, seek pos s = (Ok tt, set_position p s) /\ 0 <= p <= byteLength s /\
            (forall z, pos = Num z -> 0 <= z <= byteLength s -> p = z).
Proof.
  intros Hlen. unfold seek. run.
  destruct pos as [z| | |]; simpl; eexists; (split; [reflexivity|]);
    (split; [lia|]); intros z' [=]; subst; lia.
Qed.

Lemma mapUint8Array_outcome (len : Z) (s : KaitaiStream) :
  (exists arr, mapUint8Array len s = (Ok arr, set_position (position s + len) s) /\
               0 <= len /\ position s + len <= byteLength s) \/
  (exists e, mapUint8Array len s = (Err e, s)).
Proof.
  unfold mapUint8Array. run.
  destruct (Z.ltb_spec (byteLength s) (position s + len)); [right; eauto|].
  unfold Uint8Array_new.
  destruct (_ <? 0); [right; eauto|].
  destruct (Z.ltb_spec len 0); [right; eauto|].
  destruct (_ <? _); [right; eauto|].
  left. eexists. repeat split; lia.
Qed.

Lemma mapUint8Array_stays_in_view (len : Z) (s : KaitaiStream) :
  cursor_in_view s -> cursor_in_view (snd (mapUint8Array len s)).
Proof.
  intros Hc. pose proof Hc as [Hok Hpos]. pose proof Hok as (_ & _ & _ & H3).
  destruct (mapUint8Array_outcome len s) as [(arr & -> & Hl & Hfit) | (e & ->)];
    simpl; [|assumption].
  apply cursor_in_view_set; [assumption|lia].
Qed.

Lemma scan_terminator_range (fuel : nat) (u8 : list Z) (t blen i0 : Z) :
  i0 <= blen ->
  i0 <= scan_terminator fuel u8 t blen i0 <= blen.
Proof.
  revert i0. induction fuel as [|fuel IH]; intros i0 Hi; simpl; [lia|].
  destruct (Z.ltb_spec i0 blen); simpl; [|lia].
  destruct (negb _); [|lia].
  specialize (IH (i0 + 1) ltac:(lia)). lia.
Qed.

Lemma readStrz_stays_in_view dec enc t include consume eosError (s : KaitaiStream) :
  cursor_in_view s -> include && consume = false ->
  cursor_in_view (snd (readStrz dec enc t include consume eosError s)).
Proof.
  intros Hc Hflags. pose proof Hc as [Hok Hpos].
  pose proof Hok as (_ & _ & _ & H3).
  unfold readStrz. run.
  destruct (Uint8Array_new _ _ None) as [u8|e]; simpl; [|assumption].
  pose proof (scan_terminator_range (Z.to_nat (byteLength s - position s)) u8 t
                (byteLength s - position s) 0 ltac:(lia)) as Hi.
  set (i := scan_terminator _ _ _ _ _) in *.
  destruct (Z.eqb_spec i (byteLength s - position s)) as [Heq|Hne].
  - destruct eosError; [unfold resolve; cbn; assumption|].
    pose proof (mapUint8Array_stays_in_view i s Hc) as Hm.
    destruct (mapUint8Array i s) as [[arr|e] s1]; exact Hm.
  - destruct include, consume; try discriminate.
    + destruct (mapUint8Array_outcome (i + 1) s)
        as [(arr & -> & _ & Hfit) | (e & ->)]; simpl; [|assumption].
      apply cursor_in_view_set; [assumption|lia].
    + destruct (mapUint8Array_outcome i s)
        as [(arr & -> & _ & Hfit) | (e & ->)]; simpl; [|assumption].
      unfold cursor_in_view, stream_ok, byteLength in *; simpl; lia.
    + destruct (mapUint8Array_outcome i s)
        as [(arr & -> & _ & Hfit) | (e & ->)]; simpl; [|assumption].
      apply cursor_in_view_set; [assumption|lia].
Qed.

(** X8. The positioning and byte-level operations keep the cursor inside
    the view, on success and on failure: [seek] with any argument,
    [readBytes] with any length, [readBytesFull], the string readers built
    on them, [readStrz] unless [include] and [consume] are both set, and
    the numeric readers when the DataView covers exactly the view. *)
Theorem cursor_stays_in_view (s : KaitaiStream) :
  cursor_in_view s ->
  (forall pos, cursor_in_view (snd (seek pos s))) /\
  (forall len, cursor_in_view (snd (readBytes len s))) /\
  cursor_in_view (snd (readBytesFull s)) /\
  (forall dec enc, cursor_in_view (snd (readStrEos dec enc s))) /\
  (forall dec len enc, cursor_in_view (snd (readStrByteLimit dec len enc s))) /\
  (forall dec enc t include consume eosError,
     include && consume = false ->
     cursor_in_view (snd (readStrz dec enc t include consume eosError s))) /\
  (forall name, dataview_matches s -> cursor_in_view (snd (call_reader name s))).
Proof.
  intros Hc. pose proof Hc as [Hok Hpos]. pose proof Hok as (H0 & H1 & H2 & H3).
  assert (Hmap : forall len, cursor_in_view (snd (mapUint8Array len s)))
    by (intros; apply mapUint8Array_stays_in_view; assumption).
  split; [|split; [exact Hmap|split; [apply Hmap|split; [|split; [|split]]]]].
  - intros pos.
    destruct (seek_lands_in_view pos s) as (p & -> & Hp & _);
      [unfold byteLength; lia|].
    apply cursor_in_view_set; assumption.
  - intros dec enc. unfold readStrEos, readBytesFull. run.
    specialize (Hmap (byteLength s - position s)).
    destruct (mapUint8Array _ s) as [[arr|e] s1]; exact Hmap.
  - intros dec len enc. unfold readStrByteLimit, readBytes. run.
    specialize (Hmap len).
    destruct (mapUint8Array _ s) as [[arr|e] s1]; exact Hmap.
  - intros. apply readStrz_stays_in_view; assumption.
  - intros name [_ Hlen].
    destruct (reader_width name) as [n|] eqn:Hw.
    + destruct (numeric_reader_cases_by_width name n s Hw)
        as [(Hp & Hfit & v & ->) | (_ & ->)]; simpl; [|assumption].
      destruct (call_reader_wraps name n Hw) as (Hn & _).
      apply cursor_in_view_set; [assumption|lia].
    + destruct (call_reader_cases name) as [[_ ->] | (n & le & wrap & Hw' & _)];
        [assumption|congruence].
Qed.

Lemma cursor_stays_in_view_witness :
  cursor_in_view (snd (seek Infinity stream_AB0C)) /\
  cursor_in_view (snd (readBytes 3 stream_AB0C)) /\
  cursor_in_view (snd (readBytes 9 stream_AB0C)).
Proof.
  assert (Hc : cursor_in_view stream_AB0C) by (split; concrete).
  destruct (cursor_stays_in_view stream_AB0C Hc) as (Hseek & Hread & _).
  split; [apply Hseek|]. split; apply Hread.
Defined.

(** X9. Seeking back to a position saved before a call undoes the call:
    for every method that assigns nothing but [position] (as every
    reader does) and every stream with the cursor in the view, [seek] to the old position gives back the stream as it was,
    whether the call returned or threw. *)
Theorem seek_back_restores {A} (m : M A) (s : KaitaiStream) :
  cursor_in_view s -> keeps_window m ->
  snd (seek (Num (position s)) (snd (m s))) = s.
Proof.
  intros [Hok Hpos] Hm. pose proof Hok as (H0 & H1 & H2 & H3).
  specialize (Hm s). unfold same_window in Hm.
  set (s1 := snd (m s)) in *.
  assert (Hlen : byteLength s1 = byteLength s) by (rewrite Hm; reflexivity).
  destruct (seek_lands_in_view (Num (position s)) s1) as (p & -> & _ & Hp);
    [rewrite Hlen; unfold byteLength; lia|].
  rewrite (Hp (position s) eq_refl) by (rewrite Hlen; lia).
  simpl. rewrite Hm. destruct s; reflexivity.
Qed.

Lemma seek_back_restores_witness :
  snd (seek (Num (position stream_AB0C)) (snd (readBytes 3 stream_AB0C)))
  = stream_AB0C.
Proof.
  apply (seek_back_restores (readBytes 3) stream_AB0C).
  - split; concrete.
  - apply keeps_window_mapUint8Array.
Defined.

(** ** Raw bytes *)

Lemma bytes_at_app (l : list Z) (p a b : Z) :
  0 <= p -> 0 <= a -> 0 <= b ->
  bytes_at l p a ++ bytes_at l (p + a) b = bytes_at l p (a + b).
Proof.
  intros Hp Ha Hb. unfold bytes_at.
  rewrite (Z2Nat.inj_add p a), (Z2Nat.inj_add a b) by lia.
  rewrite <- drop_drop. apply take_take_drop.
Qed.

(** X10. Two reads in a row return, together, the bytes one read of the
    combined length returns, and leave the stream in the same state. When
    only the first of the two fits, the pair fails with the second read's
    [KaitaiEOFError] after the first has moved [position], while the
    single read fails and moves nothing. *)
Theorem readBytes_split (s : KaitaiStream) (a b : Z) :
  stream_ok s -> 0 <= a -> 0 <= b ->
  (position s + a + b <= byteLength s ->
   (let! x := readBytes a in let! y := readBytes b in ret (x ++ y)) s
   = readBytes (a + b) s) /\
  (position s + a <= byteLength s -> byteLength s < position s + a + b ->
   (let! x := readBytes a in let! y := readBytes b in ret (x ++ y)) s
   = (Err (KaitaiEOFError b (byteLength s - position s - a)),
      set_position (position s + a) s) /\
   readBytes (a + b) s
   = (Err (KaitaiEOFError (a + b) (byteLength s - position s)), s)).
Proof.
  intros Hok Ha Hb. pose proof Hok as (H0 & H1 & H2 & H3).
  assert (Hok' : stream_ok (set_position (position s + a) s))
    by (unfold stream_ok in *; simpl; lia).
  unfold readBytes. split.
  - intros Hfit. unfold bind at 1.
    rewrite (mapUint8Array_fits s a) by (assumption || lia).
    unfold bind at 1.
    rewrite (mapUint8Array_fits (set_position (position s + a) s) b)
      by (try assumption; unfold byteLength in *; simpl; lia).
    rewrite (mapUint8Array_fits s (a + b)) by (assumption || lia).
    unfold ret. simpl. f_equal.
    + f_equal. change (view (set_position (position s + a) s)) with (view s).
      apply bytes_at_app; lia.
    + unfold set_position; simpl. f_equal. lia.
  - intros Hfit Hshort. split.
    + unfold bind at 1.
      rewrite (mapUint8Array_fits s a) by (assumption || lia).
      unfold bind at 1.
      rewrite (mapUint8Array_short (set_position (position s + a) s) b)
        by (unfold byteLength in *; simpl; lia).
      simpl. do 3 f_equal. unfold byteLength; simpl. lia.
    + apply mapUint8Array_short. lia.
Qed.

Lemma readBytes_split_witness :
  (let! x := readBytes 1 in let! y := readBytes 2 in ret (x ++ y)) stream_AB0C
  = readBytes (1 + 2) stream_AB0C.
Proof.
  apply (readBytes_split stream_AB0C 1 2 stream_AB0C_ok); concrete.
Defined.

(** X11. [readBytesFull] returns the remaining bytes and leaves the
    stream at its end: [isEof] is then true, a second [readBytesFull]
    returns no bytes, and every [readBytes] of a positive length throws
    [KaitaiEOFError] with 0 bytes available. *)
Theorem readBytesFull_reaches_eof (s : KaitaiStream) :
  cursor_in_view s ->
  let s_end := set_position (byteLength s) s in
  readBytesFull s = (Ok (remaining s), s_end) /\
  isEof s_end = (Ok true, s_end) /\
  readBytesFull s_end = (Ok [], s_end) /\
  forall len, 0 < len -> readBytes len s_end = (Err (KaitaiEOFError len 0), s_end).
Proof.
  intros [Hok Hpos] s_end. pose proof Hok as (H0 & H1 & H2 & H3).
  assert (Hok' : stream_ok s_end)
    by (unfold stream_ok, s_end, byteLength in *; simpl; lia).
  assert (Hlen : byteLength s_end = byteLength s) by reflexivity.
  assert (Hp : position s_end = byteLength s) by reflexivity.
  split; [|split; [|split]].
  - unfold readBytesFull. run.
    rewrite mapUint8Array_fits by (assumption || lia).
    rewrite remaining_is_slice by assumption.
    f_equal. unfold s_end, set_position. f_equal. lia.
  - unfold isEof, bind, this, ret. rewrite Hp, Hlen, Z.leb_refl. reflexivity.
  - unfold readBytesFull, bind, this.
    rewrite mapUint8Array_fits by (try assumption; lia).
    rewrite Hp, Hlen, Z.sub_diag. f_equal.
    unfold s_end, set_position; simpl. f_equal. lia.
  - intros len Hl. unfold readBytes.
    rewrite mapUint8Array_short by lia.
    rewrite Hp, Hlen, Z.sub_diag. reflexivity.
Qed.

Lemma readBytesFull_reaches_eof_witness :
  readBytesFull (set_position 1 stream_AB0C)
  = (Ok [0x42; 0x00; 0x43], set_position 4 stream_AB0C) /\
  isEof (set_position 4 stream_AB0C) = (Ok true, set_position 4 stream_AB0C).
Proof.
  assert (Hc : cursor_in_view (set_position 1 stream_AB0C)) by (split; concrete).
  destruct (readBytesFull_reaches_eof (set_position 1 stream_AB0C) Hc)
    as (Hfull & Heof & _).
  split; [exact Hfull|exact Heof].
Defined.

(** X12. With the cursor in the view, [isEof] answers true exactly when
    no byte remains, and changes nothing. *)
Theorem isEof_iff_nothing_remains (s : KaitaiStream) :
  cursor_in_view s ->
  snd (isEof s) = s /\
  (fst (isEof s) = Ok true <-> remaining s = []).
Proof.
  intros [Hok Hpos]. pose proof (remaining_length s Hok Hpos) as Hr.
  unfold isEof. run. split; [reflexivity|].
  unfold byteLengthOf in Hr.
  destruct (Z.leb_spec (byteLength s) (position s)); split.
  - intros _. apply length_zero_iff_nil. lia.
  - reflexivity.
  - discriminate.
  - intros Hnil. rewrite Hnil in Hr. simpl in Hr. lia.
Qed.

Lemma isEof_iff_nothing_remains_witness :
  snd (isEof stream_AB0C) = stream_AB0C /\
  (fst (isEof stream_AB0C) = Ok true <-> remaining stream_AB0C = []).
Proof.
  apply (isEof_iff_nothing_remains stream_AB0C). split; concrete.
Defined.

(** ** Strings *)

Lemma fromCharCode_length (codes : list Z) :
  String.length (fromCharCode codes) = length codes.
Proof.
  unfold fromCharCode. rewrite <- (length_map (fun c => ascii_of_N (Z.to_N c)) codes).
  induction (map _ codes) as [|c l IH]; [reflexivity|].
  change (S (String.length (string_of_list_ascii l)) = S (length l)).
  rewrite IH. reflexivity.
Qed.

(** X13. The chunking of [createStringFromArray] does not show: the
    result has one character per element, and the string of a
    concatenation is the concatenation of the strings, wherever the chunk
    boundaries fall. *)
Theorem createStringFromArray_chunking (a b : list Z) :
  String.length (createStringFromArray a) = length a /\
  createStringFromArray (a ++ b)
  = String.append (createStringFromArray a) (createStringFromArray b).
Proof.
  rewrite !createStringFromArray_fromCharCode. split.
  - apply fromCharCode_length.
  - apply fromCharCode_app.
Qed.

Lemma readStrEos_run dec enc (s : KaitaiStream) :
  cursor_in_view s ->
  readStrEos dec enc s
  = (arrayToString dec (remaining s) enc, set_position (byteLength s) s).
Proof.
  intros [Hok Hpos]. pose proof Hok as (H0 & H1 & H2 & H3).
  unfold readStrEos, readBytesFull, bind, this, host.
  rewrite mapUint8Array_fits by (assumption || lia).
  rewrite remaining_is_slice by assumption.
  f_equal. unfold set_position. f_equal. lia.
Qed.

(** X14. With no encoding or the label "ASCII", [readStrByteLimit] never
    consults a decoder: when [len] bytes remain it returns the string of
    exactly those bytes, [len] characters long, and moves [position]
    forward by [len]; when fewer remain it throws [readBytes]'s
    [KaitaiEOFError] and changes nothing. *)
Theorem readStrByteLimit_default (dec : string -> list Z -> result string)
        (enc : option string) (len : Z) (s : KaitaiStream) :
  stream_ok s -> 0 <= len -> enc = None \/ enc = Some "ASCII"%string ->
  (position s + len <= byteLength s ->
   readStrByteLimit dec len enc s
   = (Ok (fromCharCode (bytes_at (view s) (position s) len)),
      set_position (position s + len) s) /\
   Z.of_nat (String.length (fromCharCode (bytes_at (view s) (position s) len))) = len) /\
  (byteLength s < position s + len ->
   readStrByteLimit dec len enc s
   = (Err (KaitaiEOFError len (byteLength s - position s)), s)).
Proof.
  intros Hok Hlen Henc. unfold readStrByteLimit, readBytes, bind, host. split.
  - intros Hfit. rewrite mapUint8Array_fits by assumption. split.
    + f_equal. destruct Henc as [-> | ->];
        apply (arrayToString_default dec).
    + rewrite fromCharCode_length.
      apply (slice_length s Hok); (lia || apply Hok).
  - intros Hshort. rewrite mapUint8Array_short by assumption. reflexivity.
Qed.

Lemma readStrByteLimit_default_witness :
  readStrByteLimit rejecting_decoder 2 (Some "ASCII"%string) stream_AB0C
  = (Ok "AB"%string, set_position 2 stream_AB0C) /\
  readStrByteLimit rejecting_decoder 5 None stream_AB0C
  = (Err (KaitaiEOFError 5 4), stream_AB0C).
Proof.
  split.
  - apply (readStrByteLimit_default rejecting_decoder (Some "ASCII"%string) 2
             stream_AB0C stream_AB0C_ok); [lia|right; reflexivity|concrete].
  - apply (readStrByteLimit_default rejecting_decoder None 5
             stream_AB0C stream_AB0C_ok); [lia|left; reflexivity|concrete].
Defined.

(** X15. When the terminator is not among the remaining bytes and
    [eosError] is off, [readStrz] is [readStrEos]: the same string or the
    same decoder failure, and the stream at its end, whatever [include]
    and [consume] say. *)
Theorem readStrz_without_terminator_is_readStrEos
        (dec : string -> list Z -> result string) (enc : option string) (t : Z)
        (include consume : bool) (s : KaitaiStream) :
  cursor_in_view s -> t ∉ remaining s ->
  readStrz dec enc t include consume false s = readStrEos dec enc s.
Proof.
  intros Hc Hnone. pose proof Hc as [Hok Hpos].
  rewrite readStrEos_run by assumption.
  apply (readStrz_not_found dec enc t include consume false s Hok Hpos Hnone).
Qed.

Lemma readStrz_without_terminator_is_readStrEos_witness :
  readStrz rejecting_decoder None 7 true true false stream_AB0C
  = readStrEos rejecting_decoder None stream_AB0C.
Proof.
  apply (readStrz_without_terminator_is_readStrEos rejecting_decoder None 7
           true true stream_AB0C).
  - split; concrete.
  - apply (bool_decide_unpack _). vm_compute. exact I.
Defined.

(** X16. When the first terminator is at offset [i] of the remaining
    bytes, [readStrz] takes [i] bytes, or [i + 1] with [include], decodes
    them, and leaves [position] after the bytes taken, one further with
    [consume]; [eosError] plays no part. *)
Theorem readStrz_at_terminator
        (dec : string -> list Z -> result string) (enc : option string) (t : Z)
        (include consume eosError : bool) (s : KaitaiStream) (i : nat) :
  stream_ok s ->
  remaining s !! i = Some t ->
  (forall j, (j < i)%nat -> remaining s !! j <> Some t) ->
  readStrz dec enc t include consume eosError s
  = (arrayToString dec
       (bytes_at (view s) (position s)
                 (Z.of_nat i + (if include then 1 else 0))) enc,
     set_position (position s + Z.of_nat i + (if include then 1 else 0)
                   + (if consume then 1 else 0)) s).
Proof. apply readStrz_found. Qed.

Lemma readStrz_at_terminator_witness :
  readStrz rejecting_decoder None 0 false true true stream_AB0C
  = (Ok "AB"%string, set_position 3 stream_AB0C).
Proof.
  apply (readStrz_at_terminator rejecting_decoder None 0 false true true
           stream_AB0C 2 stream_AB0C_ok eq_refl).
  intros [|[|j]] Hj; [discriminate|discriminate|lia].
Defined.

(** ** Copying between buffers *)

(** X17. [memcpy] succeeds exactly when both windows of [n] bytes lie in
    their buffers, and throws the host's RangeError otherwise. The
    destination keeps its length; its window holds the source window's
    bytes afterwards, and the bytes before and after the window are
    untouched. *)
Theorem memcpy_spec (dst : ArrayBuffer) (dstOffset : Z) (src : ArrayBuffer)
        (srcOffset n : Z) :
  (0 <= n -> 0 <= dstOffset -> dstOffset + n <= byteLengthOf dst ->
   0 <= srcOffset -> srcOffset + n <= byteLengthOf src ->
   exists r, memcpy dst dstOffset src srcOffset n = Ok r /\
             byteLengthOf r = byteLengthOf dst /\
             bytes_at r dstOffset n = bytes_at src srcOffset n /\
             take (Z.to_nat dstOffset) r = take (Z.to_nat dstOffset) dst /\
             drop (Z.to_nat (dstOffset + n)) r = drop (Z.to_nat (dstOffset + n)) dst) /\
  (n < 0 \/ dstOffset < 0 \/ byteLengthOf dst < dstOffset + n \/
   srcOffset < 0 \/ byteLengthOf src < srcOffset + n ->
   memcpy dst dstOffset src srcOffset n = Err RangeError).
Proof.
  unfold memcpy, Uint8Array_new, byteLengthOf. split.
  - intros Hn Hd Hdfit Hs Hsfit.
    rewrite (Zltb_false dstOffset 0), (Zltb_false n 0) by lia.
    rewrite (Zltb_false (Z.of_nat (length dst))) by lia.
    rewrite (Zltb_false srcOffset 0) by lia.
    rewrite (Zltb_false (Z.of_nat (length src))) by lia.
    eexists. split; [reflexivity|].
    set (srcU8 := bytes_at src srcOffset n).
    assert (Hlen : length srcU8 = Z.to_nat n)
      by (unfold srcU8, bytes_at; rewrite length_take, length_drop; lia).
    unfold Uint8Array_set. rewrite Hlen.
    assert (Htake : length (take (Z.to_nat dstOffset) dst) = Z.to_nat dstOffset)
      by (rewrite length_take; lia).
    repeat split.
    + rewrite !length_app, Htake, Hlen, length_drop. lia.
    + unfold bytes_at at 1.
      rewrite drop_app_length' by (symmetry; exact Htake).
      rewrite take_app_length' by (symmetry; exact Hlen). reflexivity.
    + rewrite take_app_length' by (symmetry; exact Htake). reflexivity.
    + rewrite app_assoc.
      rewrite drop_app_length'
        by (rewrite length_app, Htake, Hlen; lia).
      f_equal. lia.
  - intros Hbad.
    destruct (Z.ltb_spec dstOffset 0); [reflexivity|].
    destruct (Z.ltb_spec n 0); [reflexivity|].
    destruct (Z.ltb_spec (Z.of_nat (length dst)) (dstOffset + n)); [reflexivity|].
    destruct (Z.ltb_spec srcOffset 0); [reflexivity|].
    destruct (Z.ltb_spec (Z.of_nat (length src)) (srcOffset + n)); [reflexivity|].
    lia.
Qed.

Lemma memcpy_spec_witness :
  memcpy [0; 0; 0; 0; 0] 1 [7; 8; 9] 1 2 = Ok [0; 8; 9; 0; 0] /\
  memcpy [0; 0; 0; 0; 0] 4 [7; 8; 9] 1 2 = Err RangeError.
Proof.
  split.
  - reflexivity.
  - apply (memcpy_spec [0; 0; 0; 0; 0] 4 [7; 8; 9] 1 2).
    right; right; left. unfold byteLengthOf; simpl; lia.
Defined.

(** ** Byte order of typed arrays *)

(** The inner loop reverses the bytes between [k] and [j]. *)
Lemma flip_element_rev (fuel : nat) (pre mid post : list Z) :
  Forall is_byte mid -> (length mid <= fuel)%nat ->
  flip_element fuel (pre ++ mid ++ post)
               (length pre + length mid - 1) (length pre)
  = pre ++ rev mid ++ post.
Proof.
  revert pre mid post.
  induction fuel as [|fuel IH]; intros pre mid post Hbytes Hfuel.
  - destruct mid; [reflexivity|simpl in Hfuel; lia].
  - cbn [flip_element].
    destruct mid as [|x mid]; [|destruct (exists_last (l := x :: mid)) as (mid0 & y & Hsplit);
                                  [discriminate|]].
    + rewrite (proj2 (Nat.ltb_ge _ _)) by (simpl; lia). reflexivity.
    + destruct mid0 as [|x0 mid'].
      * (* a single byte *)
        injection Hsplit as -> ->.
        rewrite (proj2 (Nat.ltb_ge _ _)) by (simpl; lia). reflexivity.
      * injection Hsplit as <- Hmid. rewrite Hmid in *. clear Hmid mid.
        apply Forall_cons in Hbytes as [Hx Hrest].
        apply Forall_app in Hrest as [Hmid' Hy].
        apply Forall_inv in Hy.
        assert (Hj : (length pre + length (x :: mid' ++ [y]) - 1
                      = length pre + S (length mid'))%nat)
          by (simpl; rewrite length_app; simpl; lia).
        rewrite Hj.
        rewrite (proj2 (Nat.ltb_lt _ _)) by lia.
        assert (Hk : (pre ++ (x :: mid' ++ [y]) ++ post) !! length pre = Some x)
          by (apply list_lookup_middle; reflexivity).
        assert (Hjy : (pre ++ (x :: mid' ++ [y]) ++ post)
                      !! (length pre + S (length mid'))%nat = Some y).
        { rewrite lookup_app_r by lia.
          replace (length pre + S (length mid') - length pre)%nat
            with (S (length mid')) by lia.
          simpl. rewrite <- app_assoc.
          apply list_lookup_middle. reflexivity. }
        rewrite Hk, Hjy. simpl Bits.operand.
        rewrite (ToUint8_byte x Hx), (ToUint8_byte y Hy).
        replace (<[(length pre + S (length mid'))%nat := x]>
                   (<[length pre := y]> (pre ++ (x :: mid' ++ [y]) ++ post)))
          with ((pre ++ [y]) ++ mid' ++ ([x] ++ post)).
        -- replace (length pre + S (length mid') - 1)%nat
             with (length (pre ++ [y]) + length mid' - 1)%nat
             by (rewrite length_app; simpl; lia).
           replace (length pre + 1)%nat with (length (pre ++ [y]))
             by (rewrite length_app; simpl; lia).
           rewrite IH.
           ++ simpl. rewrite rev_app_distr. simpl.
              rewrite <- !app_assoc. reflexivity.
           ++ assumption.
           ++ simpl in Hfuel. rewrite length_app in Hfuel. simpl in Hfuel. lia.
        -- symmetry.
           rewrite (insert_app_r_alt pre) by lia.
           rewrite Nat.sub_diag. simpl.
           rewrite (insert_app_r_alt pre) by lia.
           replace (length pre + S (length mid') - length pre)%nat
             with (S (length mid')) by lia.
           simpl. rewrite <- !app_assoc. simpl.
           do 2 f_equal.
           rewrite (insert_app_r_alt mid') by lia.
           rewrite Nat.sub_diag. reflexivity.
Qed.

Lemma flip_elements_spec (t : element_type) (elems : list (list Z))
      (fuel : nat) (pre : list Z) :
  Forall (element_ok t) elems -> (length elems <= fuel)%nat ->
  flip_elements fuel (BYTES_PER_ELEMENT t)
                (length pre + length (concat elems)) (pre ++ concat elems)
                (length pre)
  = pre ++ concat (map (@rev Z) elems).
Proof.
  intros Hok. revert fuel pre.
  induction Hok as [|e elems [Hlen Hbytes] _ IH]; intros fuel pre Hfuel.
  - simpl. rewrite Nat.add_0_r.
    destruct fuel; simpl; [reflexivity|].
    rewrite Nat.ltb_irrefl. reflexivity.
  - destruct fuel as [|fuel]; [simpl in Hfuel; lia|].
    assert (Hpos : (0 < BYTES_PER_ELEMENT t)%nat) by (destruct t; simpl; lia).
    cbn [flip_elements concat map].
    rewrite (proj2 (Nat.ltb_lt _ _)) by (rewrite length_app; lia).
    rewrite <- Hlen.
    rewrite (flip_element_rev (length e) pre e (concat elems))
      by (assumption || lia).
    rewrite Hlen.
    rewrite app_assoc.
    replace (length pre + BYTES_PER_ELEMENT t)%nat with (length (pre ++ rev e))
      by (rewrite length_app, length_rev; lia).
    replace (length pre + length (e ++ concat elems))%nat
      with (length (pre ++ rev e) + length (concat elems))%nat
      by (rewrite !length_app, length_rev; lia).
    rewrite IH by (simpl in Hfuel; lia).
    rewrite <- app_assoc. reflexivity.
Qed.

Lemma concat_length_ge (t : element_type) (elems : list (list Z)) :
  Forall (element_ok t) elems -> (length elems <= length (concat elems))%nat.
Proof.
  induction 1 as [|e elems [Hlen _] _ IH]; simpl; [lia|].
  rewrite length_app.
  assert ((0 < BYTES_PER_ELEMENT t)%nat) by (destruct t; simpl; lia). lia.
Qed.

Lemma flipArrayEndianness_elements (t : element_type) (elems : list (list Z)) :
  Forall (element_ok t) elems ->
  flipArrayEndianness (array_of t elems) = array_of t (map (@rev Z) elems).
Proof.
  intros Hok. unfold flipArrayEndianness, array_of. simpl. f_equal.
  apply (flip_elements_spec t elems (length (concat elems)) [] Hok).
  apply (concat_length_ge t). assumption.
Qed.

Lemma element_ok_rev (t : element_type) (elems : list (list Z)) :
  Forall (element_ok t) elems -> Forall (element_ok t) (map (@rev Z) elems).
Proof.
  intros H. apply Forall_map. eapply Forall_impl; [exact H|].
  intros e [Hlen Hb]. split; [rewrite length_rev; exact Hlen|].
  apply Forall_rev. exact Hb.
Qed.

Lemma map_rev_rev (elems : list (list Z)) : map (@rev Z) (map (@rev Z) elems) = elems.
Proof.
  rewrite map_map. induction elems as [|e elems IH]; simpl; [reflexivity|].
  rewrite rev_involutive, IH. reflexivity.
Qed.

(** X18. [flipArrayEndianness] reverses the bytes of every element of
    the array and nothing else: an array made of the elements [elems]
    becomes the array made of their reversals, whatever the element type,
    and keeps its byte length. *)
Theorem flipArrayEndianness_spec (t : element_type) (elems : list (list Z)) :
  Forall (element_ok t) elems ->
  flipArrayEndianness (array_of t elems) = array_of t (map (@rev Z) elems) /\
  length (ta_bytes (flipArrayEndianness (array_of t elems)))
  = length (ta_bytes (array_of t elems)).
Proof.
  intros Hok. rewrite flipArrayEndianness_elements by assumption.
  split; [reflexivity|]. unfold array_of. simpl.
  clear Hok. induction elems as [|e elems IH]; simpl; [reflexivity|].
  rewrite !length_app, length_rev, IH. reflexivity.
Qed.

Lemma flipArrayEndianness_spec_witness :
  flipArrayEndianness (mkTypedArray Uint32Array [0x78; 0x56; 0x34; 0x12; 1; 2; 3; 4])
  = mkTypedArray Uint32Array [0x12; 0x34; 0x56; 0x78; 4; 3; 2; 1].
Proof.
  apply (flipArrayEndianness_spec Uint32Array [[0x78; 0x56; 0x34; 0x12]; [1; 2; 3; 4]]).
  repeat constructor; unfold is_byte; lia.
Defined.

(** X19. Flipping twice gives the array back, and flipping an array of
    one-byte elements changes nothing. *)
Theorem flipArrayEndianness_involution (t : element_type) (elems : list (list Z)) :
  Forall (element_ok t) elems ->
  flipArrayEndianness (flipArrayEndianness (array_of t elems)) = array_of t elems /\
  (BYTES_PER_ELEMENT t = 1%nat ->
   flipArrayEndianness (array_of t elems) = array_of t elems).
Proof.
  intros Hok. split.
  - rewrite flipArrayEndianness_elements by assumption.
    rewrite flipArrayEndianness_elements by (apply element_ok_rev; assumption).
    rewrite map_rev_rev. reflexivity.
  - intros Hone. rewrite flipArrayEndianness_elements by assumption.
    f_equal. induction Hok as [|e elems [Hlen _] _ IH]; simpl; [reflexivity|].
    rewrite IH. f_equal. rewrite Hone in Hlen.
    destruct e as [|x [|y e]]; simpl in Hlen; try lia. reflexivity.
Qed.

Lemma flipArrayEndianness_involution_witness :
  flipArrayEndianness
    (flipArrayEndianness (array_of Uint16Array [[1; 2]; [3; 4]; [5; 6]]))
  = array_of Uint16Array [[1; 2]; [3; 4]; [5; 6]].
Proof.
  apply (flipArrayEndianness_involution Uint16Array [[1; 2]; [3; 4]; [5; 6]]).
  repeat constructor; unfold is_byte; lia.
Defined.

(** X20. [arrayToNative] and [nativeToEndian] are the same conversion: on
    every platform each leaves the array alone when the stated byte order
    is the platform's and flips it otherwise, so converting to native
    order and back to the stated order gives the array back. *)
Theorem arrayToNative_round_trip (endianness littleEndian : bool)
        (t : element_type) (elems : list (list Z)) :
  Forall (element_ok t) elems ->
  (forall a, arrayToNative endianness a littleEndian
             = nativeToEndian endianness a littleEndian) /\
  arrayToNative endianness (array_of t elems) endianness = array_of t elems /\
  arrayToNative endianness (array_of t elems) (negb endianness)
  = array_of t (map (@rev Z) elems) /\
  nativeToEndian endianness
    (arrayToNative endianness (array_of t elems) littleEndian) littleEndian
  = array_of t elems.
Proof.
  intros Hok. unfold arrayToNative, nativeToEndian.
  split; [intros a; destruct littleEndian, endianness; reflexivity|].
  split; [destruct endianness; reflexivity|].
  split.
  - destruct endianness; simpl; apply flipArrayEndianness_elements; assumption.
  - destruct littleEndian, endianness; simpl; try reflexivity;
      rewrite flipArrayEndianness_elements by assumption;
      rewrite flipArrayEndianness_elements by (apply element_ok_rev; assumption);
      rewrite map_rev_rev; reflexivity.
Qed.

Lemma arrayToNative_round_trip_witness :
  nativeToEndian true
    (arrayToNative true (array_of Uint16Array [[1; 2]; [3; 4]]) false) false
  = array_of Uint16Array [[1; 2]; [3; 4]].
Proof.
  apply (arrayToNative_round_trip true false Uint16Array [[1; 2]; [3; 4]]).
  repeat constructor; unfold is_byte; lia.
Defined.

(** ** XOR with a key *)

Lemma ToUint8_idem (z : Z) : ToUint8 (ToUint8 z) = ToUint8 z.
Proof. unfold ToUint8. apply Z.mod_mod. lia. Qed.

(** X21. Two passes of [processXorOne] are one pass with the XOR of the
    two keys, for any numbers in [data] and any keys; the result is as
    long as [data] and holds bytes only. *)
Theorem processXorOne_compose (data : list Z) (k1 k2 : Z) :
  processXorOne (processXorOne data k1) k2 = processXorOne data (xor k1 k2) /\
  length (processXorOne data k1) = length data /\
  Forall is_byte (processXorOne data k1).
Proof.
  rewrite !processXorOne_map. split; [|split].
  - rewrite map_map. apply map_ext. intros d.
    rewrite (ToUint8_xor (ToUint8 (xor d k1)) k2), ToUint8_idem.
    rewrite (ToUint8_xor d k1), (ToUint8_xor d (xor k1 k2)), (ToUint8_xor k1 k2).
    apply Z.lxor_assoc.
  - apply length_map.
  - apply Forall_map, Forall_forall. intros d _. apply ToUint8_is_byte.
Qed.

Lemma processXorMany_imap (data key : list Z) :
  key <> [] ->
  processXorMany data key
  = imap (fun i d => ToUint8 (xor d (operand (key !! (i mod length key)%nat)))) data.
Proof.
  intros Hkey. rewrite processXorMany_map by assumption.
  apply list_eq. intros i.
  change (map ?f ?l) with (f <$> l).
  rewrite list_lookup_fmap, list_lookup_imap.
  destruct (data !! i) as [d|] eqn:E.
  - rewrite lookup_seq_lt by (eapply lookup_lt_Some; eauto). simpl.
    rewrite E. reflexivity.
  - apply lookup_ge_None in E. rewrite lookup_seq_ge by lia. reflexivity.
Qed.

Lemma processXorMany_no_key (data : list Z) :
  processXorMany data [] = map ToUint8 data.
Proof.
  unfold processXorMany.
  rewrite (for_each_index_run _ _ O (fun _ => O)
             (fun i => xor (operand (data !! i)) 0)) by reflexivity.
  simpl.
  rewrite (map_seq_lookup (fun o => ToUint8 (xor (operand o) 0))).
  apply map_ext. intros d. simpl.
  rewrite ToUint8_xor. change (ToUint8 0) with 0. apply Z.lxor_0_r.
Qed.

Lemma map_ToUint8_bytes (data : list Z) :
  Forall is_byte data -> map ToUint8 data = data.
Proof.
  induction 1 as [|d data Hd _ IH]; simpl; [reflexivity|].
  rewrite ToUint8_byte, IH by assumption. reflexivity.
Qed.

(** X22. [processXorMany] undoes itself: applied twice with the same key,
    of any length and also empty, it gives back the byte sequence it
    started from. *)
Theorem processXorMany_involution (data key : list Z) :
  Forall is_byte data ->
  processXorMany (processXorMany data key) key = data.
Proof.
  intros Hdata. destruct key as [|k key].
  - rewrite !processXorMany_no_key, map_map.
    rewrite <- (map_ToUint8_bytes data Hdata) at 2.
    apply map_ext. intros d. apply ToUint8_idem.
  - rewrite !processXorMany_imap by discriminate.
    apply list_eq. intros i. rewrite !list_lookup_imap.
    destruct (data !! i) as [d|] eqn:E; simpl; [|reflexivity].
    f_equal. apply xor_twice. exact (Forall_lookup_1 _ _ _ _ Hdata E).
Qed.

Lemma processXorMany_involution_witness :
  processXorMany (processXorMany [0x01; 0x02; 0x03] [0xFF; 0x00]) [0xFF; 0x00]
  = [0x01; 0x02; 0x03].
Proof.
  apply (processXorMany_involution [0x01; 0x02; 0x03] [0xFF; 0x00]).
  repeat constructor; unfold is_byte; lia.
Defined.

(** X23. The two ends of the key lengths: with a key of one element
    [processXorMany] is [processXorOne] with that element, and with an
    empty key (where [key[ki]] is [undefined]) it returns the bytes of
    [data] unchanged. *)
Theorem processXorMany_short_keys (data : list Z) (k : Z) :
  processXorMany data [k] = processXorOne data k /\
  (Forall is_byte data -> processXorMany data [] = data).
Proof.
  split.
  - rewrite processXorMany_map by discriminate.
    rewrite processXorOne_map.
    rewrite <- (map_seq_lookup (fun o => ToUint8 (xor (operand o) k))).
    apply map_ext. intros i. change (length [k]) with 1%nat.
    rewrite Nat.mod_1_r. reflexivity.
  - intros Hdata. rewrite processXorMany_no_key.
    apply map_ToUint8_bytes. assumption.
Qed.

(** ** Rotation there and back *)

Lemma rotate_left_by_is_byte (k : Z) (d : Z) :
  is_byte d -> 0 <= k <= 8 -> is_byte (rotate_left_by (Z.to_nat k) d).
Proof.
  intros Hd Hk. rewrite <- rotate_expr_small by assumption.
  apply ToUint8_is_byte.
Qed.

Lemma processRotateLeft_small (data : list Z) (k : Z) :
  Forall is_byte data -> 0 <= k <= 8 ->
  processRotateLeft data k 1 = Ok (map (rotate_left_by (Z.to_nat k)) data).
Proof.
  intros Hdata Hk. rewrite processRotateLeft_map. f_equal.
  induction Hdata as [|d data Hd _ IH]; simpl; [reflexivity|].
  rewrite rotate_expr_small by assumption. rewrite IH. reflexivity.
Qed.

(** X24. Rotating the bytes left by [k] and then by [8 - k] positions
    gives them back, for [k] from 0 to 8; in particular rotating by 0 or
    by 8 changes nothing. *)
Theorem processRotateLeft_round_trip (data : list Z) (k : Z) :
  Forall is_byte data -> 0 <= k <= 8 ->
  exists r, processRotateLeft data k 1 = Ok r /\
            processRotateLeft r (8 - k) 1 = Ok data /\
            processRotateLeft data 0 1 = Ok data /\
            processRotateLeft data 8 1 = Ok data.
Proof.
  intros Hdata Hk.
  assert (Hid : forall n, (n = 0 \/ n = 8)%nat ->
                          map (rotate_left_by n) data = data).
  { intros n Hn. induction Hdata as [|d data Hd _ IH]; simpl; [reflexivity|].
    rewrite IH. f_equal.
    destruct Hn as [-> | ->]; [reflexivity|apply rotate_left_by_8; assumption]. }
  eexists. split; [apply processRotateLeft_small; assumption|].
  split; [|split].
  - rewrite processRotateLeft_small.
    + f_equal. rewrite map_map. rewrite <- (Hid 8%nat) at 2 by auto.
      apply map_ext. intros d. unfold rotate_left_by.
      rewrite <- Nat.iter_add. f_equal. lia.
    + apply Forall_map. eapply Forall_impl; [exact Hdata|].
      intros d Hd. apply rotate_left_by_is_byte; assumption.
    + lia.
  - rewrite processRotateLeft_small by (assumption || lia).
    f_equal. apply (Hid 0%nat). auto.
  - rewrite processRotateLeft_small by (assumption || lia).
    f_equal. apply (Hid 8%nat). auto.
Qed.

Lemma processRotateLeft_round_trip_witness :
  exists r, processRotateLeft [0x81; 0x0F] 3 1 = Ok r /\
            processRotateLeft r (8 - 3) 1 = Ok [0x81; 0x0F] /\
            processRotateLeft [0x81; 0x0F] 0 1 = Ok [0x81; 0x0F] /\
            processRotateLeft [0x81; 0x0F] 8 1 = Ok [0x81; 0x0F].
Proof.
  apply (processRotateLeft_round_trip [0x81; 0x0F] 3); [|lia].
  repeat constructor; unfold is_byte; lia.
Defined.

(** ** The buffer getter and the setters *)

Lemma take_view (buf : list Z) (off len : nat) :
  (off <= len)%nat ->
  take (len - off) (drop off (take len buf)) = take (len - off) (drop off buf).
Proof.
  intros Hle.
  replace len with (off + (len - off))%nat at 2 by lia.
  rewrite <- take_drop_commute, take_take. f_equal. lia.
Qed.

(** What [_trimAlloc] does when the buffer is longer than [_byteLength]. *)
Lemma _trimAlloc_trims (s : KaitaiStream) :
  stream_ok s -> _byteLength s < byteLengthOf (_buffer s) ->
  _trimAlloc s
  = Ok (mkStream (take (Z.to_nat (_byteLength s)) (_buffer s))
                 (_byteOffset s) (_byteLength s)
                 (mkDataView (_byteOffset s) (byteLength s)) (position s)).
Proof.
  intros (H0 & H1 & H2 & H3) Hlt. unfold _trimAlloc.
  rewrite (proj2 (Z.eqb_neq _ _)) by lia.
  unfold ArrayBuffer_new. rewrite Zltb_false by lia.
  assert (Hrep : byteLengthOf (replicate (Z.to_nat (_byteLength s)) 0)
                 = _byteLength s)
    by (unfold byteLengthOf; rewrite length_replicate; lia).
  rewrite Hrep. unfold Uint8Array_new. simpl (0 <? 0).
  rewrite (Zltb_false (_byteLength s) 0) by lia.
  rewrite (Zltb_false (byteLengthOf (_buffer s)) (0 + _byteLength s)) by lia.
  unfold bytes_at. change (Z.to_nat 0) with 0%nat. rewrite drop_0.
  set (src := take (Z.to_nat (_byteLength s)) (_buffer s)).
  assert (Hsrc : length src = Z.to_nat (_byteLength s))
    by (unfold src; rewrite length_take; unfold byteLengthOf in H2; lia).
  assert (Hset : Uint8Array_set (replicate (Z.to_nat (_byteLength s)) 0) 0 src = src).
  { unfold Uint8Array_set. change (Z.to_nat 0) with 0%nat. rewrite take_0.
    rewrite drop_ge by (rewrite length_replicate; lia).
    apply app_nil_r. }
  change (0 <? 0) with false. cbv beta iota. rewrite Hset. unfold set_buffer, DataView_new.
  assert (Hlen : byteLengthOf src = _byteLength s)
    by (unfold byteLengthOf; lia).
  rewrite Hlen, (Zltb_false (_byteOffset s) 0), Zltb_false by lia.
  reflexivity.
Qed.

(** X25. The [buffer] getter returns the first [_byteLength] bytes of the
    buffer and leaves a stream with the same view, position and length
    whose buffer is exactly that long, so asking again changes nothing
    more. When it had to trim, the DataView of the numeric readers covers
    exactly the view afterwards. *)
Theorem buffer_getter_trims (s : KaitaiStream) :
  stream_ok s ->
  exists s',
    get_buffer s = Ok (take (Z.to_nat (_byteLength s)) (_buffer s), s') /\
    view s' = view s /\ position s' = position s /\
    byteLength s' = byteLength s /\ stream_ok s' /\
    _byteLength s' = byteLengthOf (_buffer s') /\
    get_buffer s' = Ok (_buffer s', s') /\
    (_byteLength s < byteLengthOf (_buffer s) -> dataview_matches s').
Proof.
  intros Hok. pose proof Hok as (H0 & H1 & H2 & H3).
  assert (Hfix : forall s0, _byteLength s0 = byteLengthOf (_buffer s0) ->
                            get_buffer s0 = Ok (_buffer s0, s0)).
  { intros s0 Heq. unfold get_buffer, _trimAlloc.
    rewrite (proj2 (Z.eqb_eq _ _) Heq). reflexivity. }
  destruct (Z.eq_dec (_byteLength s) (byteLengthOf (_buffer s))) as [Heq|Hne].
  - exists s. rewrite (Hfix s Heq).
    rewrite take_ge by (unfold byteLengthOf in Heq; lia).
    repeat split; try assumption; try lia.
  - unfold get_buffer at 1. rewrite _trimAlloc_trims by (assumption || lia).
    eexists. split; [reflexivity|].
    set (src := take (Z.to_nat (_byteLength s)) (_buffer s)).
    assert (Hlen : byteLengthOf src = _byteLength s)
      by (unfold byteLengthOf, src; rewrite length_take;
          unfold byteLengthOf in H2; lia).
    split; [|split; [reflexivity|split; [reflexivity|split; [|split; [|split]]]]].
    + unfold view, byteLength, bytes_at; simpl.
      rewrite !Z2Nat.inj_sub by lia. unfold src. apply take_view. lia.
    + unfold stream_ok; simpl. lia.
    + simpl. lia.
    + apply Hfix. simpl. lia.
    + intros _. split; reflexivity.
Qed.

Lemma buffer_getter_trims_witness :
  exists s',
    get_buffer stream_view2 = Ok ([1; 2], s') /\
    view s' = view stream_view2 /\ position s' = position stream_view2 /\
    byteLength s' = byteLength stream_view2 /\ stream_ok s' /\
    _byteLength s' = byteLengthOf (_buffer s') /\
    get_buffer s' = Ok (_buffer s', s') /\
    (_byteLength stream_view2 < byteLengthOf (_buffer stream_view2) ->
     dataview_matches s').
Proof.
  apply (buffer_getter_trims stream_view2). concrete.
Defined.

(** X26. Reattaching leaves [position] where it was and recomputes the
    view. After the [byteOffset] setter the view is the whole buffer from
    the new offset on, whatever the length was before; after the
    [dataView] setter it is the DataView's bytes. Either setter throws
    the host's RangeError for an offset outside the buffer. *)
Theorem setters_rebind (s : KaitaiStream) :
  (forall v, 0 <= v <= byteLengthOf (_buffer s) ->
     exists s', set_byteOffset v s = Ok s' /\ position s' = position s /\
                view s' = drop (Z.to_nat v) (_buffer s) /\ dataview_matches s') /\
  (forall v, v < 0 \/ byteLengthOf (_buffer s) < v ->
     set_byteOffset v s = Err RangeError) /\
  (forall buf voff vlen, 0 <= voff -> 0 <= vlen -> voff + vlen <= byteLengthOf buf ->
     exists s', set_dataView buf voff vlen s = Ok s' /\ position s' = position s /\
                view s' = bytes_at buf voff vlen /\ byteLength s' = vlen) /\
  (forall buf voff vlen, voff < 0 \/ byteLengthOf buf < voff ->
     set_dataView buf voff vlen s = Err RangeError).
Proof.
  unfold set_byteOffset, set_dataView, DataView_new.
  split; [|split; [|split]].
  - intros v Hv. rewrite (Zltb_false v 0), Zltb_false by lia. simpl.
    eexists. split; [reflexivity|]. split; [reflexivity|].
    unfold view, byteLength, bytes_at, dataview_matches; simpl.
    split; [|split; reflexivity].
    apply take_ge. rewrite length_drop. unfold byteLengthOf in *. lia.
  - intros v [Hv|Hv].
    + rewrite (Zltb_true v 0) by lia. reflexivity.
    + destruct (v <? 0); [reflexivity|]. rewrite Zltb_true by lia. reflexivity.
  - intros buf voff vlen H0 H1 H2.
    rewrite (Zltb_false voff 0), Zltb_false by lia. simpl.
    eexists. split; [reflexivity|]. split; [reflexivity|].
    unfold view, byteLength; simpl. split; [f_equal|]; lia.
  - intros buf voff vlen [H|H].
    + rewrite (Zltb_true voff 0) by lia. reflexivity.
    + destruct (voff <? 0); [reflexivity|]. rewrite Zltb_true by lia. reflexivity.
Qed.

(** ** The readers with an endianness argument *)

(** X27. [readFloat32] and [readFloat64] read little-endian only when
    told so: with the argument [true] they are [readF4le] and [readF8le],
    with [false] they are [readF4be] and [readF8be], and with no argument
    on a stream that has no [endianness] property of its own they are the
    big-endian readers too, whatever the platform's byte order. *)
Theorem readFloat_endianness (own : option bool) (s : KaitaiStream) :
  readFloat32 own (Some true) s = readF4le s /\
  readFloat32 own (Some false) s = readF4be s /\
  readFloat32 None None s = readF4be s /\
  readFloat64 own (Some true) s = readF8le s /\
  readFloat64 own (Some false) s = readF8be s /\
  readFloat64 None None s = readF8be s /\
  defined_on_prototype "endianness" = false.
Proof. repeat split. Qed.

(** ** Wider readers from narrower ones *)

Lemma le_value_app (x y : list Z) :
  le_value (x ++ y) = le_value x + 256 ^ Z.of_nat (length x) * le_value y.
Proof.
  induction x as [|b x IH]; [simpl; lia|].
  cbn [app le_value length]. rewrite IH, Nat2Z.inj_succ, Z.pow_succ_r by lia.
  ring.
Qed.

Lemma be_value_app (x y : list Z) :
  be_value (x ++ y) = 256 ^ Z.of_nat (length y) * be_value x + be_value y.
Proof.
  unfold be_value. rewrite rev_app_distr, le_value_app, length_rev. ring.
Qed.

(** X28. On a stream whose DataView covers its view and that has four
    bytes left, one 32-bit read is two 16-bit reads put together: the
    first 16-bit value is the low half little-endian and the high half
    big-endian, and both ways leave the stream in the same state. *)
Theorem readU4_from_readU2 (s : KaitaiStream) :
  stream_ok s -> dataview_matches s -> position s + 4 <= byteLength s ->
  exists a b c d s',
    (let! x := readU2le in let! y := readU2le in ret (x, y)) s
    = (Ok (Int a, Int b), s') /\
    readU4le s = (Ok (Int (a + 65536 * b)), s') /\
    (let! x := readU2be in let! y := readU2be in ret (x, y)) s
    = (Ok (Int c, Int d), s') /\
    readU4be s = (Ok (Int (65536 * c + d)), s').
Proof.
  intros Hok Hm Hfit. pose proof Hok as (H0 & H1 & H2 & H3).
  set (s2 := set_position (position s + 2) s).
  assert (Hok2 : stream_ok s2) by (unfold stream_ok, s2 in *; simpl; lia).
  assert (Hm2 : dataview_matches s2) by exact Hm.
  set (x := bytes_at (view s) (position s) 2).
  set (y := bytes_at (view s) (position s + 2) 2).
  assert (Hx : length x = 2%nat).
  { pose proof (slice_length s Hok (position s) 2 H3 ltac:(lia) ltac:(lia)) as Hl.
    unfold byteLengthOf in Hl. fold x in Hl. lia. }
  assert (Hy : length y = 2%nat).
  { pose proof (slice_length s Hok (position s + 2) 2 ltac:(lia) ltac:(lia) ltac:(lia)) as Hl.
    unfold byteLengthOf in Hl. fold y in Hl. lia. }
  assert (Hxy : bytes_at (view s) (position s) 4 = x ++ y)
    by (symmetry; apply (bytes_at_app (view s) (position s) 2 2); lia).
  assert (Hrun : forall n le (st : KaitaiStream),
             stream_ok st -> dataview_matches st -> 0 <= n ->
             position st + n <= byteLength st ->
             read_fixed n le Int st
             = (Ok (Int (if le then le_value (bytes_at (view st) (position st) n)
                         else be_value (bytes_at (view st) (position st) n))),
                set_position (position st + n) st)).
  { intros n le st Hst Hmt Hn Hft.
    rewrite read_fixed_via_readBytes by assumption.
    unfold via_readBytes, readBytes.
    rewrite mapUint8Array_fits by assumption. reflexivity. }
  exists (le_value x), (le_value y), (be_value x), (be_value y),
         (set_position (position s + 4) s).
  assert (Hs2 : set_position (position s2 + 2) s2 = set_position (position s + 4) s)
    by (unfold s2, set_position; simpl; f_equal; lia).
  split; [|split; [|split]].
  - change readU2le with (read_fixed 2 true Int).
    unfold bind at 1. rewrite Hrun by (assumption || lia).
    unfold bind at 1. fold s2.
    rewrite Hrun by (try assumption; unfold byteLength, s2 in *; simpl; lia).
    rewrite Hs2. reflexivity.
  - change readU4le with (read_fixed 4 true Int).
    rewrite Hrun by (assumption || lia).
    rewrite Hxy, le_value_app, Hx. reflexivity.
  - change readU2be with (read_fixed 2 false Int).
    unfold bind at 1. rewrite Hrun by (assumption || lia).
    unfold bind at 1. fold s2.
    rewrite Hrun by (try assumption; unfold byteLength, s2 in *; simpl; lia).
    rewrite Hs2. reflexivity.
  - change readU4be with (read_fixed 4 false Int).
    rewrite Hrun by (assumption || lia).
    rewrite Hxy, be_value_app, Hy. reflexivity.
Qed.

Lemma readU4_from_readU2_witness :
  exists a b c d s',
    (let! x := readU2le in let! y := readU2le in ret (x, y)) stream_AB0C
    = (Ok (Int a, Int b), s') /\
    readU4le stream_AB0C = (Ok (Int (a + 65536 * b)), s') /\
    (let! x := readU2be in let! y := readU2be in ret (x, y)) stream_AB0C
    = (Ok (Int c, Int d), s') /\
    readU4be stream_AB0C = (Ok (Int (65536 * c + d)), s').
Proof.
  apply (readU4_from_readU2 stream_AB0C stream_AB0C_ok).
  - split; reflexivity.
  - concrete.
Defined.

(** X29. Constructing a stream from a size: a negative size, or one
    above [2^53 - 1], throws the host's RangeError; and whenever the
    constructor returns, the stream is at position 0 over that many zero
    bytes, one zero byte when the size is 0 or missing. *)
Theorem KaitaiStream_new_size (n : option Z) :
  (or_default n 1 < 0 \/ max_index < or_default n 1 ->
   KaitaiStream_new (OfSize n) None = Err RangeError) /\
  (forall s, KaitaiStream_new (OfSize n) None = Ok s ->
     0 <= or_default n 1 <= max_index /\
     cursor_in_view s /\ position s = 0 /\
     view s = replicate (Z.to_nat (or_default n 1)) 0 /\
     dataview_matches s /\
     (n = None \/ n = Some 0 -> view s = [0])).
Proof.
  unfold KaitaiStream_new, ArrayBuffer_of_size, ArrayBuffer_new. split.
  - intros [Hneg | Hbig].
    + destruct (max_index <? or_default n 1); [reflexivity|].
      rewrite Zltb_true by lia. reflexivity.
    + rewrite Zltb_true by lia. reflexivity.
  - intros s.
    destruct (Z.ltb_spec max_index (or_default n 1)) as [|Hmax]; [discriminate|].
    destruct (Z.ltb_spec (or_default n 1) 0) as [|Hpos]; [discriminate|].
    unfold set_buffer, DataView_new.
    destruct (Z.ltb_spec (byteLengthOf (replicate (Z.to_nat (or_default n 1)) 0))
                         (or_default None 0)) as [Hneg|_];
      [unfold byteLengthOf in Hneg; simpl in Hneg; lia|].
    simpl. intros [= <-].
    unfold cursor_in_view, stream_ok, view, byteLength, bytes_at, dataview_matches;
      simpl.
    assert (Hview : take (Z.to_nat (byteLengthOf (replicate (Z.to_nat (or_default n 1)) 0) - 0))
                         (replicate (Z.to_nat (or_default n 1)) 0)
                    = replicate (Z.to_nat (or_default n 1)) 0)
      by (apply take_ge; unfold byteLengthOf; lia).
    repeat split; try lia; try (unfold byteLengthOf; lia); try exact Hview.
    intros [-> | ->]; reflexivity.
Qed.

Lemma KaitaiStream_new_size_witness :
  KaitaiStream_new (OfSize (Some 9007199254740992)) None = Err RangeError /\
  view (mkStream [0; 0; 0] 0 3 (mkDataView 0 3) 0) = replicate (Z.to_nat 3) 0.
Proof.
  split.
  - apply (KaitaiStream_new_size (Some 9007199254740992)).
    right. unfold max_index. simpl. lia.
  - apply (proj2 (KaitaiStream_new_size (Some 3))
             (mkStream [0; 0; 0] 0 3 (mkDataView 0 3) 0)).
    reflexivity.
Defined.
